(** * kopf: callback invocation core and hierarchy helpers

    A shallow embedding of [kopf/reactor/invocation.py] and
    [kopf/toolkits/hierarchies.py].

    Python dictionaries are finite maps with string keys ([gmap string _]);
    dictionaries that are objects with an identity (the [**kwargs] of a
    call, the dictionary built by [build_kwargs]) live in a store indexed by
    object identity.  Functions that can raise return a [result]; functions
    that also mutate thread their state through the monad [M]. *)

From stdpp Require Import gmap strings list fin_maps.

Set Warnings "-register-all".

Local Open Scope string_scope.
Local Open Scope list_scope.

(** ** Exceptions and results *)

(** An exception instance: its class (by name) and its identity. *)
Inductive exn := Exc (cls : string) (id : nat).

Global Instance exn_eq_dec : EqDecision exn.
Proof. solve_decision. Defined.

Definition exc_class (e : exn) : string := let 'Exc c _ := e in c.

Definition AttributeError : exn := Exc "AttributeError" 0.
Definition TypeError : exn := Exc "TypeError" 0.
Definition KeyError : exn := Exc "KeyError" 0.
Definition ValueError : exn := Exc "ValueError" 0.
Definition RuntimeError : exn := Exc "RuntimeError" 0.
Definition RecursionError : exn := Exc "RecursionError" 0.
Definition LookupError : exn := Exc "LookupError" 0.

(** [isinstance(e, asyncio.CancelledError)] *)
Definition is_CancelledError (e : exn) : bool :=
  bool_decide (exc_class e = "CancelledError").

Inductive result (A : Type) :=
| Ok (a : A)
| Raise (e : exn).
Global Arguments Ok {A} a.
Global Arguments Raise {A} e.

Definition is_Ok {A} (r : result A) : bool :=
  match r with Ok _ => true | Raise _ => false end.

Definition rbind {A B} (r : result A) (k : A -> result B) : result B :=
  match r with Ok a => k a | Raise e => Raise e end.

(** State-and-exception monad: a raise keeps the state reached so far, as
    mutations made before a Python exception persist. *)
Definition M (S A : Type) : Type := S -> result A * S.

Definition ret {S A} (a : A) : M S A := fun s => (Ok a, s).
Definition raise {S A} (e : exn) : M S A := fun s => (Raise e, s).
Definition bind {S A B} (m : M S A) (k : A -> M S B) : M S B :=
  fun s => match m s with
           | (Ok a, s') => k a s'
           | (Raise e, s') => (Raise e, s')
           end.
Definition get_state {S} : M S S := fun s => (Ok s, s).
Definition put_state {S} (s : S) : M S unit := fun _ => (Ok tt, s).
Definition lift_result {S A} (r : result A) : M S A := fun s => (r, s).

Declare Scope m_scope.
Delimit Scope m_scope with M.
Notation "x <- m ;; k" := (bind m (fun x => k))
  (at level 100, m at next level, right associativity) : m_scope.
Notation "m ;;; k" := (bind m (fun _ => k))
  (at level 100, right associativity) : m_scope.

(** [for x in xs: body(x)], stopping at the first raise. *)
Fixpoint for_each {S A} (xs : list A) (body : A -> M S unit) : M S unit :=
  match xs with
  | [] => ret tt
  | x :: xs' => bind (body x) (fun _ => for_each xs' body)
  end.

(** ** Python values *)

(** The values that resource bodies and handler arguments are made of.
    [VObj] is an opaque object known by its identity (a logger, a patch, a
    memo, ...); dictionaries compare by content, as Python's [==] does. *)
Inductive pyval :=
| VNone
| VBool (b : bool)
| VStr (s : string)
| VObj (id : nat)
| VList (l : list pyval)
| VDict (d : gmap string pyval).

Fixpoint pyval_eq_dec (a b : pyval) {struct a} : Decision (a = b).
Proof.
  refine (match a, b with
          | VNone, VNone => left eq_refl
          | VBool x, VBool y => cast_if (decide (x = y))
          | VStr x, VStr y => cast_if (decide (x = y))
          | VObj x, VObj y => cast_if (decide (x = y))
          | VList x, VList y => cast_if (@list_eq_dec _ pyval_eq_dec x y)
          | VDict x, VDict y =>
              cast_if (@gmap_eq_dec _ _ _ _ pyval_eq_dec x y)
          | _, _ => right _
          end); congruence.
Defined.
Global Instance pyval_eqdec : EqDecision pyval := pyval_eq_dec.

(** [v.get(key, default)]: only mappings have [get]. *)
Definition py_get (v : pyval) (key : string) (dflt : pyval) : result pyval :=
  match v with
  | VDict d => Ok (default dflt (d !! key))
  | _ => Raise AttributeError
  end.

(** ** Causes *)

Module causation.

(** Modelled from the spec: the [kopf.reactor.causation] classes are not
    among the sources.  A cause carries the Base-tier [logger] and the
    field set of every further tier it satisfies; [isinstance(cause, T)]
    holds iff the field set of tier [T] is present.  The five concrete
    classes are the constructors below the record. *)
Record resource_fields := {
  patch : pyval;
  memo : pyval;
  body : gmap string pyval;
}.
Record watching_fields := {
  raw : pyval;
  type : pyval;
}.
Record changing_fields := {
  reason : pyval;
  diff : pyval;
  old : pyval;
  new : pyval;
}.
Record cause := {
  logger : pyval;
  activity_tier : option pyval;
  resource_tier : option resource_fields;
  watching_tier : option watching_fields;
  changing_tier : option changing_fields;
}.

Definition BaseCause (lg : pyval) : cause :=
  {| logger := lg; activity_tier := None; resource_tier := None;
     watching_tier := None; changing_tier := None |}.
Definition ActivityCause (lg act : pyval) : cause :=
  {| logger := lg; activity_tier := Some act; resource_tier := None;
     watching_tier := None; changing_tier := None |}.
Definition ResourceCause (lg : pyval) (r : resource_fields) : cause :=
  {| logger := lg; activity_tier := None; resource_tier := Some r;
     watching_tier := None; changing_tier := None |}.
Definition ResourceWatchingCause (lg : pyval) (r : resource_fields)
    (w : watching_fields) : cause :=
  {| logger := lg; activity_tier := None; resource_tier := Some r;
     watching_tier := Some w; changing_tier := None |}.
Definition ResourceChangingCause (lg : pyval) (r : resource_fields)
    (c : changing_fields) : cause :=
  {| logger := lg; activity_tier := None; resource_tier := Some r;
     watching_tier := None; changing_tier := Some c |}.

End causation.

Import causation.

(** ** Keyword arguments *)

(** What a keyword argument can hold: a plain value, the cause itself, or a
    view of the body. *)
Inductive arg :=
| AVal (v : pyval)
| ACause (c : cause)
| AView (body : gmap string pyval) (field : string).

Module dicts.
(** Modelled from the spec: [kopf.structs.dicts.DictView] is not among the
    sources; it is a scoped view into the body at a fixed top-level key.
    Building the view reads nothing, so it cannot raise. *)
Definition DictView (body : gmap string pyval) (field : string) : arg :=
  AView body field.
End dicts.

(** The store of dictionary objects, by identity. *)
Abbreviation kwdict := (gmap string arg).
Abbreviation store := (gmap nat (gmap string arg)).

(** [{}] : a new, empty dictionary object. *)
Definition dict_new : M store nat :=
  fun h => let l := fresh (dom h) in (Ok l, <[l := ∅]> h).

(** [d.update(k1=v1, k2=v2, ...)]: assignments in order. *)
Definition update_items (m : kwdict) (items : list (string * arg)) : kwdict :=
  foldl (fun acc kv => <[kv.1 := kv.2]> acc) m items.

Definition dict_update_kw (dst : nat) (items : list (string * arg))
  : M store unit :=
  fun h => (Ok tt, <[dst := update_items (default ∅ (h !! dst)) items]> h).

(** [dst.update(src)]: every entry of [src] is assigned into [dst]. *)
Definition dict_update_from (dst src : nat) : M store unit :=
  fun h => (Ok tt,
            <[dst := default ∅ (h !! src) ∪ default ∅ (h !! dst)]> h).

(** The keyword values of the Resource tier.  They are evaluated before the
    update is applied; the three chained [get] calls can raise. *)
Definition resource_items (r : resource_fields)
  : result (list (string * arg)) :=
  rbind (rbind (py_get (VDict (body r)) "metadata" (VDict ∅))
               (fun md => py_get md "uid" VNone)) (fun uid =>
  rbind (rbind (py_get (VDict (body r)) "metadata" (VDict ∅))
               (fun md => py_get md "name" VNone)) (fun name =>
  rbind (rbind (py_get (VDict (body r)) "metadata" (VDict ∅))
               (fun md => py_get md "namespace" VNone)) (fun namespace =>
  Ok [("patch", AVal (patch r));
      ("memo", AVal (memo r));
      ("body", AVal (VDict (body r)));
      ("spec", dicts.DictView (body r) "spec");
      ("meta", dicts.DictView (body r) "metadata");
      ("status", dicts.DictView (body r) "status");
      ("uid", AVal uid);
      ("name", AVal name);
      ("namespace", AVal namespace)]))).

Definition base_items (c : cause) : list (string * arg) :=
  [("cause", ACause c); ("logger", AVal (logger c))].
Definition activity_items (a : pyval) : list (string * arg) :=
  [("activity", AVal a)].
Definition watching_items (w : watching_fields) : list (string * arg) :=
  [("event", AVal (raw w)); ("type", AVal (type w))].
Definition changing_items (ch : changing_fields) : list (string * arg) :=
  [("event", AVal (reason ch));
   ("reason", AVal (reason ch));
   ("diff", AVal (diff ch));
   ("old", AVal (old ch));
   ("new", AVal (new ch))].

(** [if isinstance(cause, T): new_kwargs.update(...)] for a tier [T] whose
    field set is [tier]. *)
Definition when_tier {T} (tier : option T) (upd : T -> M store unit)
  : M store unit :=
  match tier with
  | Some t => upd t
  | None => ret tt
  end.

(** [build_kwargs(cause, **kwargs)]; [kwargs] is the identity of the
    dictionary of explicit keyword arguments. *)
Definition build_kwargs (cause : option cause) (kwargs : nat)
  : M store nat :=
  (new_kwargs <- dict_new ;;
   dict_update_from new_kwargs kwargs ;;;
   when_tier cause (fun c =>
     dict_update_kw new_kwargs (base_items c)) ;;;
   when_tier (cause ≫= activity_tier) (fun a =>
     dict_update_kw new_kwargs (activity_items a)) ;;;
   when_tier cause (fun c => when_tier (resource_tier c) (fun r =>
     items <- lift_result (resource_items r) ;;
     dict_update_kw new_kwargs items)) ;;;
   when_tier (cause ≫= watching_tier) (fun w =>
     dict_update_kw new_kwargs (watching_items w)) ;;;
   when_tier (cause ≫= changing_tier) (fun ch =>
     dict_update_kw new_kwargs (changing_items ch)) ;;;
   ret new_kwargs)%M.

(** A call [build_kwargs(cause=cause, **K)] as its caller sees it: the
    call packs [K] into a dictionary of its own, and the caller reads the
    content of the dictionary that comes back. *)
Definition call_build_kwargs (cause : option cause) (K : kwdict)
  : result kwdict :=
  match build_kwargs cause 0 {[ 0 := K ]} with
  | (Ok l, h) => Ok (default ∅ (h !! l))
  | (Raise e, _) => Raise e
  end.

(** *** Vocabulary for stating what [build_kwargs] builds *)

(** The value that the last assignment to [k] in [items] gives it. *)
Fixpoint assoc_last (k : string) (items : list (string * arg)) : option arg :=
  match items with
  | [] => None
  | kv :: rest =>
      match assoc_last k rest with
      | Some w => Some w
      | None => if decide (k = kv.1) then Some kv.2 else None
      end
  end.

(** The first defined entry of a list of candidates. *)
Fixpoint first_of (cands : list (option arg)) : option arg :=
  match cands with
  | [] => None
  | Some v :: _ => Some v
  | None :: rest => first_of rest
  end.

(** All the overlays of a cause, in the order the updates are applied. *)
Definition tier_items (cause : option cause) : result (list (string * arg)) :=
  rbind (match cause ≫= resource_tier with
         | Some r => resource_items r
         | None => Ok []
         end) (fun res =>
  Ok (from_option base_items [] cause
      ++ from_option activity_items [] (cause ≫= activity_tier)
      ++ res
      ++ from_option watching_items [] (cause ≫= watching_tier)
      ++ from_option changing_items [] (cause ≫= changing_tier))).

(** The body's [metadata] is absent or is a mapping. *)
Definition metadata_ok (b : gmap string pyval) : Prop :=
  b !! "metadata" = None \/ exists md, b !! "metadata" = Some (VDict md).

(** [body.get('metadata', {}).get(field)] when [metadata_ok]. *)
Definition metadata_field (b : gmap string pyval) (field : string) : pyval :=
  match b !! "metadata" with
  | Some (VDict md) => default VNone (md !! field)
  | _ => VNone
  end.

(** The Resource-tier overlay of a body whose metadata is [metadata_ok]. *)
Definition resource_overlay (r : resource_fields) : list (string * arg) :=
  [("patch", AVal (patch r));
   ("memo", AVal (memo r));
   ("body", AVal (VDict (body r)));
   ("spec", dicts.DictView (body r) "spec");
   ("meta", dicts.DictView (body r) "metadata");
   ("status", dicts.DictView (body r) "status");
   ("uid", AVal (metadata_field (body r) "uid"));
   ("name", AVal (metadata_field (body r) "name"));
   ("namespace", AVal (metadata_field (body r) "namespace"))].

(** The overlay of a tier that may be absent. *)
Definition overlay_of {T} (f : T -> list (string * arg)) (tier : option T)
  : list (string * arg) :=
  from_option f [] tier.

(** ** Execution-model detection *)

(** The objects a handler reference can lead to.  A [functools.partial]
    knows its [func] and its bound arguments; any other object may carry a
    [__wrapped__] attribute, and [coroutinefunction] is what
    [asyncio.iscoroutinefunction] answers for it. *)
Inductive pyobject :=
| ONone
| OPartial (func : nat) (args : list pyval) (keywords : gmap string pyval)
| OCallable (wrapped : option nat) (coroutinefunction : bool).

(** The object graph: the object behind every identity.  Attributes refer
    to objects by identity, so a chain of wrappers may be cyclic. *)
Abbreviation objects := (nat -> pyobject).

(** [is_async_fn(fn)].  The function calls itself once per layer;
    [depth] is the number of calls the interpreter's recursion limit still
    allows, and exceeding it is Python's [RecursionError]. *)
Fixpoint is_async_fn (depth : nat) (heap : objects) (fn : nat) : result bool :=
  match depth with
  | 0 => Raise RecursionError
  | S depth' =>
      match heap fn with
      | ONone => Ok false
      | OPartial func _ _ => is_async_fn depth' heap func
      | OCallable (Some wrapped) _ => is_async_fn depth' heap wrapped
      | OCallable None coroutinefunction => Ok coroutinefunction
      end
  end.

(** *** Vocabulary for stating what [is_async_fn] resolves *)

(** The next layer of a partial or of a wrapper, if [fn] is one. *)
Definition inner_target (heap : objects) (fn : nat) : option nat :=
  match heap fn with
  | OPartial func _ _ => Some func
  | OCallable (Some wrapped) _ => Some wrapped
  | _ => None
  end.

(** The native calling convention of an object that is not a layer. *)
Definition natively_suspending (heap : objects) (fn : nat) : bool :=
  match heap fn with
  | OCallable None coroutinefunction => coroutinefunction
  | _ => false
  end.

(** [fn] reaches [core] through exactly [n] layers. *)
Fixpoint unwraps_to (heap : objects) (n : nat) (fn core : nat) : Prop :=
  match n with
  | 0 => fn = core
  | S n' => exists next, inner_target heap fn = Some next
                         /\ unwraps_to heap n' next core
  end.

(** The chain from [fn] ends at [core] after [n] layers. *)
Definition resolves_to (heap : objects) (n : nat) (fn core : nat) : Prop :=
  unwraps_to heap n fn core /\ inner_target heap core = None.

(** The chain from [fn] never ends: every object on it is a layer. *)
Definition unresolvable (heap : objects) (fn : nat) : Prop :=
  forall n, exists x next,
    unwraps_to heap n fn x /\ inner_target heap x = Some next.

(** *** Example object graphs *)

(** A coroutine function (object 0) under a [functools.wraps] wrapper
    (object 1), under a partial (2), under another partial (3). *)
Definition three_layers : objects := fun id =>
  match id with
  | 0 => OCallable None true
  | 1 => OCallable (Some 0) false
  | 2 => OPartial 1 [VStr "a"] ∅
  | 3 => OPartial 2 [] {[ "b" := VNone ]}
  | _ => ONone
  end.

(** A wrapper whose [__wrapped__] is the wrapper itself. *)
Definition self_wrapped : objects := fun _ => OCallable (Some 0) true.

(** ** Context variables *)

(** What [contextvars] keeps: the identity of the current [Context], the
    value of every variable that is set in it, the tokens that have been
    used, and a counter for token identities.  [ctx_log] records, in
    order, every [set] and every attempted [reset]. *)
Inductive ctx_op :=
| OpSet (var : nat) (val : pyval)
| OpReset (var : nat).

Global Instance ctx_op_eq_dec : EqDecision ctx_op.
Proof. solve_decision. Defined.

Record token := {
  tok_id : nat;
  tok_var : nat;
  tok_ctx : nat;
  tok_old : option pyval;
}.

Record ctx_state := {
  ctx_id : nat;
  ctx_vals : gmap nat pyval;
  ctx_used : gset nat;
  ctx_next : nat;
  ctx_log : list ctx_op;
}.

(** [var.set(val)]: never raises; the token remembers the old value (or
    that there was none) and the context it was made in. *)
Definition var_set (var : nat) (val : pyval) (s : ctx_state)
  : token * ctx_state :=
  ({| tok_id := ctx_next s; tok_var := var; tok_ctx := ctx_id s;
      tok_old := ctx_vals s !! var |},
   {| ctx_id := ctx_id s;
      ctx_vals := <[var := val]> (ctx_vals s);
      ctx_used := ctx_used s;
      ctx_next := S (ctx_next s);
      ctx_log := ctx_log s ++ [OpSet var val] |}).

(** [var.reset(token)]: [RuntimeError] for a token that was used already,
    [ValueError] for a token of another variable or of another context;
    otherwise the old value comes back and the token is used up. *)
Definition var_reset (var : nat) (tok : token) : M ctx_state unit :=
  fun s =>
    let s := {| ctx_id := ctx_id s; ctx_vals := ctx_vals s;
                ctx_used := ctx_used s; ctx_next := ctx_next s;
                ctx_log := ctx_log s ++ [OpReset var] |} in
    if decide (tok_id tok ∈ ctx_used s) then (Raise RuntimeError, s)
    else if decide (tok_var tok = var) then
      if decide (tok_ctx tok = ctx_id s) then
        (Ok tt,
         {| ctx_id := ctx_id s;
            ctx_vals := match tok_old tok with
                        | Some v => <[var := v]> (ctx_vals s)
                        | None => delete var (ctx_vals s)
                        end;
            ctx_used := {[ tok_id tok ]} ∪ ctx_used s;
            ctx_next := ctx_next s;
            ctx_log := ctx_log s |})
      else (Raise ValueError, s)
    else (Raise ValueError, s).

(** [try: body finally: fin] *)
Definition try_finally {S A} (body : M S A) (fin : M S unit) : M S A :=
  fun s =>
    let '(r, s') := body s in
    match fin s' with
    | (Ok _, s'') => (r, s'')
    | (Raise e, s'') => (Raise e, s'')
    end.

(** The loop [for var, val in values: tokens.append((var, var.set(val)))]. *)
Fixpoint set_all (values : list (nat * pyval)) (s : ctx_state)
  : list (nat * token) * ctx_state :=
  match values with
  | [] => ([], s)
  | (var, val) :: rest =>
      let '(tok, s1) := var_set var val s in
      let '(toks, s2) := set_all rest s1 in
      ((var, tok) :: toks, s2)
  end.

(** The loop [for var, token in reversed(tokens): var.reset(token)]. *)
Definition reset_all (tokens : list (nat * token)) : M ctx_state unit :=
  for_each (reverse tokens) (fun vt => var_reset vt.1 vt.2).

(** [with context(values): body].  The block is whatever runs between
    entry and exit: it returns, raises, or is cancelled (a raise of
    [CancelledError]), and may itself set and reset variables.  The sets
    cannot raise, so of the [try] part only the block can. *)
Definition context {A} (values : list (nat * pyval)) (body : M ctx_state A)
  : M ctx_state A :=
  fun s =>
    let '(tokens, s1) := set_all values s in
    try_finally body (reset_all tokens) s1.

(** *** Vocabulary for the scope's properties *)

(** The state in which the block of [with context(values)] starts. *)
Definition entered (values : list (nat * pyval)) (s : ctx_state) : ctx_state :=
  (set_all values s).2.

(** The block left alone what it cannot reach: it ends in the context it
    started in and has used none of the scope's tokens. *)
Definition block_respects_scope {A} (values : list (nat * pyval))
    (body : M ctx_state A) (s : ctx_state) : Prop :=
  let s2 := (body (entered values s)).2 in
  ctx_id s2 = ctx_id s
  /\ forall t, ctx_next s <= t < ctx_next s + length values -> t ∉ ctx_used s2.

(** The claim that restoration is exception-safe: whenever a scope is
    left, a reset has been attempted for every variable it bound. *)
Definition restoration_exception_safe : Prop :=
  forall (values : list (nat * pyval)) (body : M ctx_state unit)
         (s : ctx_state) (var : nat),
    var ∈ values.*1 ->
    OpReset var ∈ drop (length (ctx_log (body (entered values s)).2))
                       (ctx_log (context values body s).2).

(** A block during which the current context changes: the scope is entered
    under one [Context] and left under another, as when entry and exit are
    driven from different tasks. *)
Definition leave_in_other_context : M ctx_state unit :=
  fun s => (Ok tt, {| ctx_id := S (ctx_id s); ctx_vals := ∅;
                      ctx_used := ctx_used s; ctx_next := ctx_next s;
                      ctx_log := ctx_log s |}).

Definition empty_context : ctx_state :=
  {| ctx_id := 0; ctx_vals := ∅; ctx_used := ∅; ctx_next := 0;
     ctx_log := [] |}.

(** ** Invocation *)

(** What a call of a handler gives back: a plain value, or an awaitable
    together with what awaiting it ends in. *)
Inductive retval :=
| RVal (v : pyval)
| RAwaitable (outcome : result pyval).

(** A handler: the object it is (for the execution-model detection) and
    what calling it does, given the values of the context variables it
    runs under, the positional and the keyword arguments. *)
Record handler := {
  fn_id : nat;
  call : gmap nat pyval -> list pyval -> kwdict -> result retval;
}.

(** Where a call ran: in the event loop, or on a worker of the pool. *)
Inductive call_site := OnLoop | OnWorker.

Record call_record := {
  called_fn : nat;
  called_on : call_site;
  called_context : gmap nat pyval;
  called_args : list pyval;
  called_kwargs : gmap string arg;
}.

(** What the event loop delivers to a task that waits in
    [await asyncio.shield(future)] for a pending [future]:
    - [Cancelled c]: the task is cancelled; the await raises the
      [CancelledError] [c], the worker keeps running and [future] stays
      pending;
    - [Completed]: the worker finishes and the await ends with the
      handle's result or exception;
    - [CancelledAtCompletion c]: the task is cancelled and the worker
      finishes before the task runs again; the await raises [c] and
      [future.done()] is already true. *)
Inductive event :=
| Cancelled (c : nat)
| Completed
| CancelledAtCompletion (c : nat).

Definition CancelledError (c : nat) : exn := Exc "CancelledError" c.

(** How an invocation stands: the three ways it ends, or still waiting for
    the handle, with the cancellation recorded so far, when the schedule
    has nothing more to deliver. *)
Inductive invocation :=
| Returned (v : retval)
| RaisedError (e : exn)
| RaisedCancellation (c : exn)
| Waiting (cancellation : option exn).


(** After the loop: [if cancellation is not None: raise cancellation],
    then [result = future.result()]. *)
Definition after_wait (done : result retval) (cancellation : option exn)
  : invocation :=
  match cancellation with
  | Some c => RaisedCancellation c
  | None => match done with
            | Ok v => Returned v
            | Raise e => RaisedError e
            end
  end.

(** The loop [while not future.done(): try: await asyncio.shield(future)
    except asyncio.CancelledError as e: cancellation = e].  [future] is
    the handle's state ([None] while pending), [thunk] is what the worker
    computes when it runs, [ran] tells whether it has. *)
Fixpoint wait_loop (thunk : result retval) (sched : list event)
    (future : option (result retval)) (cancellation : option exn)
  : invocation * bool :=
  match future with
  | Some done => (after_wait done cancellation, true)
  | None =>
      match sched with
      | [] => (Waiting cancellation, false)
      | Cancelled c :: sched' =>
          wait_loop thunk sched' None (Some (CancelledError c))
      | Completed :: sched' =>
          match thunk with
          | Ok _ => wait_loop thunk sched' (Some thunk) cancellation
          | Raise e =>
              if is_CancelledError e
              then wait_loop thunk sched' (Some thunk) (Some e)
              else (RaisedError e, true)
          end
      | CancelledAtCompletion c :: sched' =>
          wait_loop thunk sched' (Some thunk) (Some (CancelledError c))
      end
  end.

(** [await fn( *args, **kwargs)]: the call, then the await of what it
    returned; awaiting something that is no awaitable is a [TypeError].
    A cancellation of the task during this await goes into the handler's
    own coroutine, so what the await ends in is the handler's to say. *)
Definition await_call (r : result retval) : invocation :=
  match r with
  | Raise e => RaisedError e
  | Ok (RAwaitable (Ok v)) => Returned (RVal v)
  | Ok (RAwaitable (Raise e)) => RaisedError e
  | Ok (RVal _) => RaisedError TypeError
  end.

(** [invoke(fn, *args, cause=cause, **kwargs)], run from a task whose
    context holds [ambient] and to which the event loop delivers [sched]
    while it waits for the pool.  The second component is the log of the
    calls of [fn] that have run. *)
Definition invoke (heap : objects) (depth : nat) (fn : handler)
    (args : list pyval) (cause : option cause) (kwargs : kwdict)
    (ambient : gmap nat pyval) (sched : list event)
  : invocation * list call_record :=
  match call_build_kwargs cause kwargs with
  | Raise e => (RaisedError e, [])
  | Ok kwargs =>
      match is_async_fn depth heap (fn_id fn) with
      | Raise e => (RaisedError e, [])
      | Ok true =>
          (await_call (call fn ambient args kwargs),
           [{| called_fn := fn_id fn; called_on := OnLoop;
               called_context := ambient; called_args := args;
               called_kwargs := kwargs |}])
      | Ok false =>
          let context := ambient in
          let real_fn := call fn context args kwargs in
          let '(outcome, ran) := wait_loop real_fn sched None None in
          (outcome,
           if ran
           then [{| called_fn := fn_id fn; called_on := OnWorker;
                    called_context := context; called_args := args;
                    called_kwargs := kwargs |}]
           else [])
      end
  end.

(** *** Vocabulary for the invocation's properties *)

(** The cancellation that a run of cancelled waits leaves recorded. *)
Definition last_cancellation (cs : list nat) : option exn :=
  CancelledError <$> last cs.


(** The event with which the worker finishes, if the schedule has one. *)
Fixpoint completion (sched : list event) : option event :=
  match sched with
  | [] => None
  | Cancelled _ :: sched' => completion sched'
  | ev :: _ => Some ev
  end.

(** The record of the one call that [invoke] makes. *)
Definition the_call (fn : handler) (site : call_site)
    (ambient : gmap nat pyval) (args : list pyval) (kw : kwdict)
  : call_record :=
  {| called_fn := fn_id fn; called_on := site; called_context := ambient;
     called_args := args; called_kwargs := kw |}.


(** A blocking handler (object 0) that raises, and a coroutine function
    (object 1) whose coroutine raises. *)
Definition plain_objects : objects := fun id =>
  match id with
  | 0 => OCallable None false
  | 1 => OCallable None true
  | _ => ONone
  end.

Definition failing_sync_handler : handler :=
  {| fn_id := 0; call := fun _ _ _ => Raise (Exc "ValueError" 7) |}.


Definition succeeding_sync_handler : handler :=
  {| fn_id := 0; call := fun _ _ _ => Ok (RVal (VStr "done")) |}.

(** ** Object hierarchies *)

(** [d[key]] *)
Definition py_getitem (d : gmap string pyval) (key : string) : result pyval :=
  match d !! key with
  | Some v => Ok v
  | None => Raise KeyError
  end.

(** [str(v)], as an f-string formats it; objects and collections are
    abbreviated. *)
Definition py_str (v : pyval) : string :=
  match v with
  | VNone => "None"
  | VBool true => "True"
  | VBool false => "False"
  | VStr s => s
  | VObj _ => "<object>"
  | VList _ => "[...]"
  | VDict _ => "{...}"
  end.

(** [l.remove(x)]: drops the first element equal to [x]. *)
Fixpoint list_remove_first (x : pyval) (l : list pyval) : result (list pyval) :=
  match l with
  | [] => Raise ValueError
  | y :: l' => if decide (y = x) then Ok l'
               else rbind (list_remove_first x l') (fun r => Ok (y :: r))
  end.

(** What the hierarchy functions read and change: the ambient
    [handling.cause_var] (unset, or holding [None] or a cause), how often
    it has been read, the warnings issued, and the target object(s)
    [objs], which are modified in place. *)
Record world := {
  cause_var : option (option cause);
  cause_var_reads : nat;
  warned : list string;
  targets : pyval;
}.

Definition set_targets (t : pyval) (w : world) : world :=
  {| cause_var := cause_var w; cause_var_reads := cause_var_reads w;
     warned := warned w; targets := t |}.

(** [handling.cause_var.get()] inside [try ... except LookupError]:
    [None] stands for the [LookupError] of an unset variable. *)
Definition cause_var_get : M world (option (option cause)) :=
  fun w => (Ok (cause_var w),
            {| cause_var := cause_var w;
               cause_var_reads := S (cause_var_reads w);
               warned := warned w; targets := targets w |}).

Definition warn (msg : string) : M world unit :=
  fun w => (Ok tt,
            {| cause_var := cause_var w; cause_var_reads := cause_var_reads w;
               warned := warned w ++ [msg]; targets := targets w |}).

(** What the body of a loop over the objects does to one object. *)
Abbreviation obj_action := (M (gmap string pyval) unit).

(** [obj.setdefault('metadata', {})], followed by [act] on the mapping it
    returns; [err] is what an operation of [act] raises on a [metadata]
    that is no mapping. *)
Definition with_metadata (err : exn) (act : obj_action) : obj_action :=
  fun obj =>
    match default (VDict ∅) (obj !! "metadata") with
    | VDict md => let '(r, md') := act md in (r, <["metadata" := VDict md']> obj)
    | _ => (Raise err, obj)
    end.

(** [refs = obj.setdefault('metadata', {}).setdefault('ownerReferences', [])]
    followed by [act] on what [refs] is. *)
Definition with_owner_references (act : M pyval unit) : obj_action :=
  with_metadata AttributeError (fun md =>
    let '(r, refs') := act (default (VList []) (md !! "ownerReferences")) in
    (r, <["ownerReferences" := refs']> md)).

(** The characters of a string, as Python iterates over it. *)
Fixpoint chars (s : string) : list pyval :=
  match s with
  | EmptyString => []
  | String a s' => VStr (String a EmptyString) :: chars s'
  end.

(** [for ref in refs]: the elements of a list, the keys of a mapping, the
    characters of a string; nothing else can be iterated over. *)
Definition py_iter (v : pyval) : result (list pyval) :=
  match v with
  | VList l => Ok l
  | VDict d => Ok (VStr <$> (map_to_list d).*1)
  | VStr s => Ok (chars s)
  | _ => Raise TypeError
  end.

(** [[ref for ref in refs if ref.get('uid') == owner_ref['uid']]] *)
Fixpoint matching_refs (owner_ref : gmap string pyval) (refs : list pyval)
  : result (list pyval) :=
  match refs with
  | [] => Ok []
  | ref :: refs' =>
      rbind (py_get ref "uid" VNone) (fun uid =>
      rbind (py_getitem owner_ref "uid") (fun owner_uid =>
      rbind (matching_refs owner_ref refs') (fun rest =>
      Ok (if decide (uid = owner_uid) then ref :: rest else rest))))
  end.

Module dicts_walk.
(** Modelled from the spec: [kopf.structs.dicts.walk] is not among the
    sources.  Over [K8sObjects = Union[K8sObject, Iterable[K8sObject]]] it
    yields the object itself, or the objects of the iterable one after the
    other; with [nested] it also yields, after each object, the sub-object
    under each of the given fields that the object has.  The loop body
    [act] runs on every object yielded, and what it changes stays changed
    when a later step raises. *)
Fixpoint at_path (path : list string) (act : obj_action) : obj_action :=
  match path with
  | [] => act
  | key :: path' =>
      fun obj =>
        match obj !! key with
        | None => (Ok tt, obj)
        | Some (VDict sub) =>
            let '(r, sub') := at_path path' act sub in
            (r, <[key := VDict sub']> obj)
        | Some _ => (Raise TypeError, obj)
        end
  end.

(** Modelled from the spec: what [dicts.walk] yields for one object with
    [nested]: the object, then its sub-objects under the nested fields. *)
Definition with_nested (nested : option (list (list string)))
    (act : obj_action) : obj_action :=
  bind act (fun _ =>
    for_each (default [] nested) (fun path => at_path path act)).

(** Modelled from the spec: [dicts.walk] over nothing, one object, or an
    iterable of objects; anything else is a [TypeError]. *)
Fixpoint walk (act : obj_action) (objs : pyval) : result unit * pyval :=
  match objs with
  | VNone => (Ok tt, VNone)
  | VDict obj => let '(r, obj') := act obj in (r, VDict obj')
  | VList l =>
      let '(r, l') :=
        (fix each (l : list pyval) : result unit * list pyval :=
           match l with
           | [] => (Ok tt, [])
           | o :: rest =>
               match walk act o with
               | (Ok _, o') => let '(r, rest') := each rest in (r, o' :: rest')
               | (Raise e, o') => (Raise e, o' :: rest)
               end
           end) l in
      (r, VList l')
  | _ => (Raise TypeError, objs)
  end.
End dicts_walk.

(** [for obj in dicts.walk(objs, nested=nested): act(obj)] *)
Definition for_walk (nested : option (list (list string))) (act : obj_action)
  : M world unit :=
  fun w =>
    let '(r, t) := dicts_walk.walk (dicts_walk.with_nested nested act)
                     (targets w) in
    (r, set_targets t w).

Definition _guess_owner (owner : option (gmap string pyval))
  : M world (gmap string pyval) :=
  match owner with
  | Some owner => ret owner
  | None =>
      (got <- cause_var_get ;;
       match got with
       | Some (Some cause) =>
           match resource_tier cause with
           | Some r => ret (body r)
           | None => raise LookupError
           end
       | Some None => raise LookupError
       | None => raise LookupError
       end)%M
  end.

(** [real_owner.get('metadata', {}).get(field, dflt)] *)
Definition owner_metadata (real_owner : gmap string pyval) (field : string)
    (dflt : pyval) : result pyval :=
  rbind (py_get (VDict real_owner) "metadata" (VDict ∅))
        (fun md => py_get md field dflt).

(** [noname = 'metadata' not in obj
              or not set(obj['metadata']) & {'name', 'generateName'}]:
    the set is built from whatever [metadata] iterates over, and its
    elements must be hashable. *)
Definition noname (obj : gmap string pyval) : result bool :=
  match obj !! "metadata" with
  | None => Ok true
  | Some metadata =>
      rbind (py_iter metadata) (fun elems =>
        if forallb (fun x => match x with
                             | VList _ | VDict _ => false
                             | _ => true
                             end) elems
        then Ok (negb (bool_decide (VStr "name" ∈ elems)
                       || bool_decide (VStr "generateName" ∈ elems)))
        else Raise TypeError)
  end.

Section hierarchies.

(** [bodies.build_owner_reference] is not among the sources: it is a
    parameter here.  It builds the reference mapping of an owner, or
    raises. *)
Variable build_owner_reference :
  gmap string pyval -> result (gmap string pyval).

Definition append_owner_reference (owner : option (gmap string pyval))
  : M world unit :=
  (real_owner <- _guess_owner owner ;;
   owner_ref <- lift_result (build_owner_reference real_owner) ;;
   for_walk None (with_owner_references (fun refs =>
     match rbind (py_iter refs) (matching_refs owner_ref) with
     | Ok [] =>
         match refs with
         | VList l => (Ok tt, VList (l ++ [VDict owner_ref]))
         | _ => (Raise AttributeError, refs)
         end
     | Ok (_ :: _) => (Ok tt, refs)
     | Raise e => (Raise e, refs)
     end)))%M.

(** [for ref in matching: refs.remove(ref)] *)
Fixpoint remove_each (matching : list pyval) : M pyval unit :=
  match matching with
  | [] => ret tt
  | ref :: matching' =>
      fun refs =>
        match refs with
        | VList l =>
            match list_remove_first ref l with
            | Ok l' => remove_each matching' (VList l')
            | Raise e => (Raise e, refs)
            end
        | _ => (Raise AttributeError, refs)
        end
  end.

Definition remove_owner_reference (owner : option (gmap string pyval))
  : M world unit :=
  (real_owner <- _guess_owner owner ;;
   owner_ref <- lift_result (build_owner_reference real_owner) ;;
   for_walk None (with_owner_references (fun refs =>
     match rbind (py_iter refs) (matching_refs owner_ref) with
     | Ok matching => remove_each matching refs
     | Raise e => (Raise e, refs)
     end)))%M.

Definition label (labels : pyval) (forced : bool)
    (nested : option (list (list string))) (force : option bool)
  : M world unit :=
  (forced <- match force with
             | Some force =>
                 (warn "force= is deprecated in kopf.label(); use forced=..." ;;;
                  ret force)
             | None => ret forced
             end ;;
   for_walk nested (with_metadata AttributeError (fun md =>
     let obj_labels := default (VDict ∅) (md !! "labels") in
     let md := <["labels" := obj_labels]> md in
     match labels with
     | VDict labels =>
         if decide (labels = ∅) then (Ok tt, md)
         else match obj_labels with
              | VDict obj_labels =>
                  (Ok tt,
                   <["labels" := VDict (if forced then labels ∪ obj_labels
                                        else obj_labels ∪ labels)]> md)
              | _ => (Raise (if forced then TypeError else AttributeError), md)
              end
     | _ => (Raise AttributeError, md)
     end)))%M.

Definition harmonize_naming (name : pyval) (forced strict : bool)
  : M world unit :=
  (name <- match name with
           | VNone =>
               (real_owner <- _guess_owner None ;;
                lift_result (owner_metadata real_owner "name" VNone))
           | _ => ret name
           end ;;
   for_walk None (fun obj =>
     match noname obj with
     | Raise e => (Raise e, obj)
     | Ok noname =>
         if forced || noname then
           if strict then
             with_metadata TypeError (fun md =>
               (Ok tt, delete "generateName" (<["name" := name]> md))) obj
           else
             with_metadata TypeError (fun md =>
               (Ok tt, delete "name"
                         (<["generateName" := VStr (py_str name +:+ "-")]> md)))
               obj
         else (Ok tt, obj)
     end))%M.

Definition adjust_namespace (namespace : pyval) (forced : bool)
  : M world unit :=
  (namespace <- match namespace with
                | VNone =>
                    (real_owner <- _guess_owner None ;;
                     lift_result (owner_metadata real_owner "namespace" VNone))
                | _ => ret namespace
                end ;;
   for_walk None (fun obj =>
     match (if forced then Ok true
            else rbind (owner_metadata obj "namespace" VNone) (fun ns =>
                 Ok (bool_decide (ns = VNone)))) with
     | Raise e => (Raise e, obj)
     | Ok true =>
         with_metadata TypeError (fun md =>
           (Ok tt, <["namespace" := namespace]> md)) obj
     | Ok false => (Ok tt, obj)
     end))%M.

Definition adopt (owner : option (gmap string pyval))
    (nested : option (list (list string))) : M world unit :=
  (real_owner <- _guess_owner owner ;;
   append_owner_reference (Some real_owner) ;;;
   name <- lift_result (owner_metadata real_owner "name" VNone) ;;
   harmonize_naming name false false ;;;
   namespace <- lift_result (owner_metadata real_owner "namespace" VNone) ;;
   adjust_namespace namespace false ;;;
   labels <- lift_result (owner_metadata real_owner "labels" (VDict ∅)) ;;
   label labels false nested None)%M.

End hierarchies.

(** *** Vocabulary and examples for the ambient-owner lookup *)

(** The ambient cause gives no owner: the variable is unset, holds [None],
    or holds a cause that is no [ResourceCause]. *)
Definition ambient_unusable (w : world) : Prop :=
  match cause_var w with
  | Some (Some c) => resource_tier c = None
  | _ => True
  end.

(** The world after one more read of the ambient variable. *)
Definition after_read (w : world) : world :=
  {| cause_var := cause_var w; cause_var_reads := S (cause_var_reads w);
     warned := warned w; targets := targets w |}.

(** An owner reference made of the owner's [apiVersion], [kind],
    [metadata.name] and [metadata.uid], for the examples. *)
Definition example_owner_reference (owner : gmap string pyval)
  : result (gmap string pyval) :=
  rbind (py_getitem owner "apiVersion") (fun api =>
  rbind (py_getitem owner "kind") (fun kind =>
  rbind (rbind (py_getitem owner "metadata") (fun md =>
                match md with
                | VDict md => py_getitem md "name"
                | _ => Raise TypeError
                end)) (fun name =>
  rbind (rbind (py_getitem owner "metadata") (fun md =>
                match md with
                | VDict md => py_getitem md "uid"
                | _ => Raise TypeError
                end)) (fun uid =>
  Ok (<["controller" := VBool true]>
      (<["blockOwnerDeletion" := VBool true]>
      (<["apiVersion" := api]>
      (<["kind" := kind]>
      (<["name" := name]>
      (<["uid" := uid]> ∅)))))))))).

(** A cluster-scoped owner: it has a name and a uid, but no namespace. *)
Definition cluster_scoped_owner : gmap string pyval :=
  <["apiVersion" := VStr "v1"]>
  (<["kind" := VStr "Namespace"]>
  (<["metadata" := VDict (<["name" := VStr "parent"]>
                          (<["uid" := VStr "uid-1"]> ∅))]> ∅)).

(** One child object, outside of any handler. *)
Definition outside_handler : world :=
  {| cause_var := None; cause_var_reads := 0; warned := [];
     targets := VList [VDict ∅] |}.

(** The same child, in a handler of a resource of the namespace [ns2]. *)
Definition inside_other_handler : world :=
  {| cause_var :=
       Some (Some (ResourceCause (VObj 1)
                     {| patch := VNone; memo := VNone;
                        body := <["metadata" :=
                                    VDict (<["namespace" := VStr "ns2"]> ∅)]>
                                  ∅ |}));
     cause_var_reads := 0; warned := [];
     targets := VList [VDict ∅] |}.

(** *** Further vocabulary for [build_kwargs] *)

(** Every name that some overlay of [build_kwargs] assigns. *)
Definition reserved_keys : list string :=
  ["cause"; "logger"; "activity"; "patch"; "memo"; "body"; "spec"; "meta";
   "status"; "uid"; "name"; "namespace"; "event"; "type"; "reason"; "diff";
   "old"; "new"].

(** The overlays of a cause whose metadata is [metadata_ok], in the order
    they are applied. *)
Definition overlay_items (c : cause) : list (string * arg) :=
  base_items c
  ++ overlay_of activity_items (activity_tier c)
  ++ overlay_of resource_overlay (resource_tier c)
  ++ overlay_of watching_items (watching_tier c)
  ++ overlay_of changing_items (changing_tier c).

(** An optional cause whose body, if it has one, has [metadata_ok]. *)
Definition cause_metadata_ok (cause : option cause) : Prop :=
  forall c r, cause = Some c -> resource_tier c = Some r ->
              metadata_ok (body r).

(** The body's [metadata] is there and is no mapping. *)
Definition metadata_broken (b : gmap string pyval) : Prop :=
  exists v, b !! "metadata" = Some v /\ forall md, v <> VDict md.

(** *** Further vocabulary for the scope and the invocation *)

(** The value that the last binding of [var] in [values] gives it. *)
Fixpoint last_bound (var : nat) (values : list (nat * pyval)) : option pyval :=
  match values with
  | [] => None
  | (var', val) :: rest =>
      match last_bound var rest with
      | Some v => Some v
      | None => if decide (var = var') then Some val else None
      end
  end.

(** *** Vocabulary for what the hierarchy functions do to well-formed
    objects *)

(** Several target objects, passed as a list. *)
Definition many (objs : list (gmap string pyval)) : pyval :=
  VList (VDict <$> objs).

(** The [metadata] mapping of an object, empty when there is none. *)
Definition obj_metadata (obj : gmap string pyval) : gmap string pyval :=
  match obj !! "metadata" with
  | Some (VDict md) => md
  | _ => ∅
  end.

(** The owner references of an object, none when there is no such list. *)
Definition owner_references (obj : gmap string pyval) : list pyval :=
  match obj_metadata obj !! "ownerReferences" with
  | Some (VList refs) => refs
  | _ => []
  end.

(** The labels of an object, none when there is no such mapping. *)
Definition obj_labels (obj : gmap string pyval) : gmap string pyval :=
  match obj_metadata obj !! "labels" with
  | Some (VDict labels) => labels
  | _ => ∅
  end.

(** [ref.get('uid') == uid] for a reference that is a mapping. *)
Definition refers_to (uid : pyval) (ref : pyval) : bool :=
  match ref with
  | VDict d => bool_decide (default VNone (d !! "uid") = uid)
  | _ => false
  end.

Definition is_mapping (v : pyval) : Prop := exists d, v = VDict d.

(** The object's [metadata] is absent or a mapping, and its
    [ownerReferences] are absent or a list of mappings. *)
Definition references_ok (obj : gmap string pyval) : Prop :=
  metadata_ok obj
  /\ (obj_metadata obj !! "ownerReferences" = None
      \/ exists refs, obj_metadata obj !! "ownerReferences" = Some (VList refs)
                      /\ Forall is_mapping refs).

(** The object's [metadata] is absent or a mapping, and its [labels] are
    absent or a mapping. *)
Definition labels_ok (obj : gmap string pyval) : Prop :=
  metadata_ok obj
  /\ (obj_metadata obj !! "labels" = None
      \/ exists labels, obj_metadata obj !! "labels" = Some (VDict labels)).

(** Two objects differ at most in the entry [field] of their metadata. *)
Definition same_but (field : string) (obj obj' : gmap string pyval) : Prop :=
  (forall k, k <> "metadata" -> obj' !! k = obj !! k)
  /\ (forall k, k <> field -> obj_metadata obj' !! k = obj_metadata obj !! k).

(** The object has a name or a name prefix. *)
Definition named (obj : gmap string pyval) : Prop :=
  is_Some (obj_metadata obj !! "name")
  \/ is_Some (obj_metadata obj !! "generateName").

(** Nothing about the ambient cause variable has changed, reads included. *)
Definition ambient_untouched {A} (m : M world A) : Prop :=
  forall w, cause_var (m w).2 = cause_var w
            /\ cause_var_reads (m w).2 = cause_var_reads w.

(** The ambient cause variable still holds what it held. *)
Definition ambient_kept {A} (m : M world A) : Prop :=
  forall w, cause_var (m w).2 = cause_var w.

(** The object with its list of owner references replaced. *)
Definition set_references (refs : list pyval) (obj : gmap string pyval)
  : gmap string pyval :=
  <["metadata" :=
      VDict (<["ownerReferences" := VList refs]> (obj_metadata obj))]> obj.

(** The references once [owner_ref] is there: added at the end unless one
    with the owner's uid is there already. *)
Definition with_reference (owner_ref : gmap string pyval) (uid : pyval)
    (refs : list pyval) : list pyval :=
  if existsb (refers_to uid) refs then refs else refs ++ [VDict owner_ref].

(** The references that do not have the owner's uid. *)
Definition without_reference (uid : pyval) (refs : list pyval) : list pyval :=
  List.filter (fun ref => negb (refers_to uid ref)) refs.

(** The reference that [example_owner_reference] builds of
    [cluster_scoped_owner]. *)
Definition example_reference : gmap string pyval :=
  <["controller" := VBool true]>
  (<["blockOwnerDeletion" := VBool true]>
  (<["apiVersion" := VStr "v1"]>
  (<["kind" := VStr "Namespace"]>
  (<["name" := VStr "parent"]>
  (<["uid" := VStr "uid-1"]> ∅))))).

(** One object with nothing in it, in a list, outside of any handler. *)
Definition one_bare_object : world :=
  {| cause_var := None; cause_var_reads := 0; warned := [];
     targets := many [∅] |}.

(** The object with its labels replaced. *)
Definition set_labels (labels : gmap string pyval) (obj : gmap string pyval)
  : gmap string pyval :=
  <["metadata" := VDict (<["labels" := VDict labels]> (obj_metadata obj))]> obj.

(** The labels after [labels] have been applied to [current]: forced, the
    applied ones win; otherwise the current ones stay. *)
Definition merged_labels (forced : bool) (labels current : gmap string pyval)
  : gmap string pyval :=
  if forced then labels ∪ current else current ∪ labels.

(** An object with two labels, outside of any handler. *)
Definition one_labelled_object : world :=
  {| cause_var := None; cause_var_reads := 0; warned := [];
     targets := many [set_labels {[ "app" := VStr "old"; "tier" := VStr "db" ]}
                        ∅] |}.

(** The object named [name]: strictly, as its [name]; otherwise as a
    [generateName] prefix. *)
Definition with_name (strict : bool) (name : pyval) (obj : gmap string pyval)
  : gmap string pyval :=
  <["metadata" :=
      VDict (if strict
             then delete "generateName" (<["name" := name]> (obj_metadata obj))
             else delete "name"
                    (<["generateName" := VStr (py_str name +:+ "-")]>
                       (obj_metadata obj)))]> obj.

(** What [harmonize_naming] makes of one object. *)
Definition harmonized (name : pyval) (forced strict : bool)
    (obj : gmap string pyval) : gmap string pyval :=
  if forced || bool_decide (~ named obj) then with_name strict name obj
  else obj.

(** The object put into [namespace]. *)
Definition with_namespace (namespace : pyval) (obj : gmap string pyval)
  : gmap string pyval :=
  <["metadata" := VDict (<["namespace" := namespace]> (obj_metadata obj))]> obj.

(** What [adjust_namespace] makes of one object. *)
Definition adjusted (namespace : pyval) (forced : bool)
    (obj : gmap string pyval) : gmap string pyval :=
  if forced || bool_decide (metadata_field obj "namespace" = VNone)
  then with_namespace namespace obj
  else obj.

(** A world whose targets are one unnamed object and one named one, in a
    handler of a resource without a name. *)
Definition in_nameless_handler : world :=
  {| cause_var :=
       Some (Some (ResourceCause (VObj 1)
                     {| patch := VNone; memo := VNone;
                        body := {[ "metadata" :=
                                     VDict {[ "namespace" := VStr "ns1" ]} ]} |}));
     cause_var_reads := 0; warned := [];
     targets := many [∅; {[ "metadata" := VDict {[ "name" := VStr "kept" ]} ]}] |}.

(* ================================================================== *)
(** * Properties *)

(** ** [build_kwargs] *)

Lemma update_items_app (m : kwdict) (xs ys : list (string * arg)) :
  update_items m (xs ++ ys) = update_items (update_items m xs) ys.
Proof. unfold update_items. apply foldl_app. Qed.

Lemma update_items_lookup (items : list (string * arg)) (m : kwdict)
    (k : string) :
  update_items m items !! k = first_of [assoc_last k items; m !! k].
Proof.
  revert m. induction items as [|[k' v] rest IH]; intros m; simpl.
  - by destruct (m !! k).
  - unfold update_items in *. simpl. rewrite IH. simpl.
    destruct (assoc_last k rest) as [w|]; [done|].
    destruct (decide (k = k')) as [->|Hne].
    + by rewrite lookup_insert_eq.
    + rewrite lookup_insert_ne by done. by destruct (m !! k).
Qed.

Lemma assoc_last_app (k : string) (xs ys : list (string * arg)) :
  assoc_last k (xs ++ ys) = first_of [assoc_last k ys; assoc_last k xs].
Proof.
  induction xs as [|kv xs IH]; simpl.
  - by destruct (assoc_last k ys).
  - rewrite IH. simpl. destruct (assoc_last k ys); [done|].
    by destruct (assoc_last k xs); [|destruct (decide _)].
Qed.

Lemma resource_items_ok (r : resource_fields) :
  metadata_ok (body r) ->
  resource_items r = Ok (resource_overlay r).
Proof.
  unfold resource_items, resource_overlay, metadata_field, py_get.
  intros [Hnone | [md Hmd]].
  - rewrite Hnone. simpl. by rewrite !lookup_empty.
  - rewrite Hmd. reflexivity.
Qed.

Lemma fresh_lookup_None (h : store) : h !! fresh (dom h) = None.
Proof. apply not_elem_of_dom, is_fresh. Qed.

Lemma when_tier_update {T A} (tier : option T)
    (f : T -> list (string * arg)) (l : nat) (m : kwdict) (h : store)
    (k : M store A) :
  bind (when_tier tier (fun t => dict_update_kw l (f t))) (fun _ => k)
       (<[l := m]> h)
  = k (<[l := update_items m (from_option f [] tier)]> h).
Proof.
  unfold bind. destruct tier as [t|]; simpl.
  - unfold dict_update_kw. by rewrite lookup_insert_eq, insert_insert_eq.
  - reflexivity.
Qed.

(** [build_kwargs] allocates one new dictionary, fills it with the explicit
    keyword arguments and then with the overlays in order; on a raise the
    new dictionary is all it has touched. *)
Lemma build_kwargs_spec (cause : option cause) (kwargs : nat) (h : store) :
  match tier_items cause with
  | Ok items =>
      build_kwargs cause kwargs h
      = (Ok (fresh (dom h)),
         <[fresh (dom h) := update_items (default ∅ (h !! kwargs)) items]> h)
  | Raise e =>
      exists m, build_kwargs cause kwargs h
                = (Raise e, <[fresh (dom h) := m]> h)
  end.
Proof.
  assert (Hstart : forall k : nat -> M store nat,
    bind dict_new (fun l => bind (dict_update_from l kwargs) (fun _ => k l)) h
    = k (fresh (dom h))
        (<[fresh (dom h) := default ∅ (h !! kwargs)]> h)).
  { intros k. unfold bind, dict_new, dict_update_from. simpl.
    rewrite lookup_insert_eq, insert_insert_eq. simpl.
    rewrite (right_id_L ∅ (∪)).
    destruct (decide (fresh (dom h) = kwargs)) as [<-|Hne].
    - by rewrite lookup_insert_eq, fresh_lookup_None.
    - by rewrite lookup_insert_ne. }
  unfold build_kwargs. rewrite Hstart. clear Hstart.
  generalize (default ∅ (h !! kwargs)) as K. intros K.
  generalize (fresh (dom h)) as l. intros l.
  unfold tier_items.
  rewrite (when_tier_update cause base_items).
  rewrite (when_tier_update (cause ≫= activity_tier) activity_items).
  destruct cause as [c|]; simpl; [|reflexivity].
  destruct (resource_tier c) as [r|]; simpl.
  - unfold bind at 1 2. unfold lift_result.
    destruct (resource_items r) as [items|e]; simpl.
    + rewrite lookup_insert_eq, insert_insert_eq. simpl default.
      rewrite (when_tier_update (watching_tier c) watching_items).
      rewrite (when_tier_update (changing_tier c) changing_items).
      unfold ret. by rewrite !update_items_app.
    + eauto.
  - unfold bind at 1. unfold ret at 1.
    rewrite (when_tier_update (watching_tier c) watching_items).
    rewrite (when_tier_update (changing_tier c) changing_items).
    unfold ret. by rewrite !update_items_app.
Qed.

Lemma tier_items_ok (c : cause) :
  (forall r, resource_tier c = Some r -> metadata_ok (body r)) ->
  tier_items (Some c)
  = Ok (base_items c
        ++ overlay_of activity_items (activity_tier c)
        ++ overlay_of resource_overlay (resource_tier c)
        ++ overlay_of watching_items (watching_tier c)
        ++ overlay_of changing_items (changing_tier c)).
Proof.
  intros Hmd. unfold tier_items, overlay_of. simpl.
  destruct (resource_tier c) as [r|]; simpl; [|reflexivity].
  by rewrite resource_items_ok by auto.
Qed.

Lemma call_build_kwargs_spec (cause : option cause) (K : kwdict) :
  call_build_kwargs cause K
  = rbind (tier_items cause) (fun items => Ok (update_items K items)).
Proof.
  unfold call_build_kwargs.
  pose proof (build_kwargs_spec cause 0 {[0 := K]}) as H.
  destruct (tier_items cause) as [items|e]; simpl.
  - rewrite H. rewrite lookup_insert_eq. simpl.
    by rewrite lookup_singleton_eq.
  - destruct H as [m ->]. reflexivity.
Qed.

(** The merged mapping of a cause with well-formed metadata: every key holds
    what the last overlay defining it assigned, or else the explicit
    keyword argument. *)
Lemma call_build_kwargs_lookup (c : cause) (K : kwdict) :
  (forall r, resource_tier c = Some r -> metadata_ok (body r)) ->
  exists kw, call_build_kwargs (Some c) K = Ok kw /\
    forall k, kw !! k =
      first_of [assoc_last k (overlay_of changing_items (changing_tier c));
                assoc_last k (overlay_of watching_items (watching_tier c));
                assoc_last k (overlay_of resource_overlay (resource_tier c));
                assoc_last k (overlay_of activity_items (activity_tier c));
                assoc_last k (base_items c);
                K !! k].
Proof.
  intros Hmd. rewrite call_build_kwargs_spec, tier_items_ok by done.
  cbn [rbind]. eexists; split; [reflexivity|]. intros k.
  rewrite update_items_lookup, !assoc_last_app.
  repeat match goal with
         | |- context [assoc_last ?k' ?l] =>
             let o := fresh "o" in generalize (assoc_last k' l); intros o
         end.
  generalize (K !! k). intros oK.
  repeat match goal with o : option arg |- _ => destruct o end;
    reflexivity.
Qed.

(** C4: with no cause, [build_kwargs] returns a mapping equal to the
    explicit keyword arguments [K]; and for every cause (also when the
    call raises) the dictionary of explicit keyword arguments, like every
    dictionary that existed before the call, is left as it was: the result
    is a new dictionary. *)
Theorem build_kwargs_identity_and_copy (K : kwdict) (kwargs : nat)
    (h : store) (cause : option cause) :
  h !! kwargs = Some K ->
  (exists new_kwargs h',
      build_kwargs None kwargs h = (Ok new_kwargs, h')
      /\ h' !! new_kwargs = Some K
      /\ new_kwargs <> kwargs)
  /\ call_build_kwargs None K = Ok K
  /\ (forall l, l ∈ dom h -> (build_kwargs cause kwargs h).2 !! l = h !! l)
  /\ (forall l, (build_kwargs cause kwargs h).1 = Ok l -> l ∉ dom h).
Proof.
  intros HK.
  assert (Hne : forall l, l ∈ dom h -> fresh (dom h) <> l).
  { intros l Hl Heq. rewrite <- Heq in Hl. by apply is_fresh in Hl. }
  split; [|split; [|split]].
  - pose proof (build_kwargs_spec None kwargs h) as H. simpl in H.
    eexists _, _. split; [exact H|]. rewrite HK. simpl.
    split; [by rewrite lookup_insert_eq|].
    apply Hne, elem_of_dom. eauto.
  - by rewrite call_build_kwargs_spec.
  - intros l Hl. pose proof (build_kwargs_spec cause kwargs h) as H.
    destruct (tier_items cause) as [items|e].
    + rewrite H. simpl. rewrite lookup_insert_ne; [done|by apply Hne].
    + destruct H as [m ->]. simpl.
      rewrite lookup_insert_ne; [done|by apply Hne].
  - intros l. pose proof (build_kwargs_spec cause kwargs h) as H.
    destruct (tier_items cause) as [items|e].
    + rewrite H. simpl. intros [= <-]. apply is_fresh.
    + destruct H as [m ->]. simpl. discriminate.
Qed.

Lemma build_kwargs_identity_and_copy_witness :
  let K : kwdict := {[ "retry" := AVal (VStr "3") ]} in
  let h : store := {[ 7 := K ]} in
  h !! 7 = Some K
  /\ call_build_kwargs None K = Ok K
  /\ (build_kwargs (Some (BaseCause (VObj 1))) 7 h).2 !! 7 = Some K.
Proof.
  intros K h.
  assert (HK : h !! 7 = Some K) by (subst h; apply lookup_singleton_eq).
  destruct (build_kwargs_identity_and_copy K 7 h
              (Some (BaseCause (VObj 1))) HK) as (_ & Hid & Hframe & _).
  split; [exact HK|]. split; [exact Hid|].
  rewrite Hframe; [exact HK|]. apply elem_of_dom. eauto.
Defined.

(** C3: for a cause [c] of the Changing tier with reason [r] and diff [D]
    and any explicit keyword arguments [K], the merged mapping holds
    [reason = r], [event = r] (also when [c] has a Watching tier or [K] an
    [event] of its own), [diff = D], and the Base-tier [cause = c] and
    [logger = c.logger]; for every key the overlay applied last among
    Base, Activity, Resource, Watching, Changing wins, and any overlay wins
    over the explicit keyword arguments. *)
Theorem build_kwargs_changing_overlay (c : cause) (ch : changing_fields)
    (K : kwdict) :
  changing_tier c = Some ch ->
  (forall r, resource_tier c = Some r -> metadata_ok (body r)) ->
  exists kw,
    call_build_kwargs (Some c) K = Ok kw
    /\ kw !! "reason" = Some (AVal (reason ch))
    /\ kw !! "event" = Some (AVal (reason ch))
    /\ kw !! "diff" = Some (AVal (diff ch))
    /\ kw !! "cause" = Some (ACause c)
    /\ kw !! "logger" = Some (AVal (logger c))
    /\ forall k, kw !! k =
         first_of
           [assoc_last k (changing_items ch);
            assoc_last k (overlay_of watching_items (watching_tier c));
            assoc_last k (overlay_of resource_overlay (resource_tier c));
            assoc_last k (overlay_of activity_items (activity_tier c));
            assoc_last k (base_items c);
            K !! k].
Proof.
  intros Hch Hmd.
  destruct (call_build_kwargs_lookup c K Hmd) as (kw & Hkw & Hlook).
  rewrite Hch in Hlook. unfold overlay_of at 1 in Hlook. simpl in Hlook.
  exists kw. split; [exact Hkw|].
  repeat split; try (rewrite Hlook; reflexivity); try apply Hlook.
  - rewrite Hlook.
    destruct (watching_tier c), (resource_tier c), (activity_tier c);
      reflexivity.
  - rewrite Hlook.
    destruct (watching_tier c), (resource_tier c), (activity_tier c);
      reflexivity.
Qed.

Lemma build_kwargs_changing_overlay_witness :
  let ch := {| reason := VStr "update"; diff := VList [VStr "change"];
               old := VNone; new := VNone |} in
  let c := {| logger := VObj 1; activity_tier := None;
              resource_tier :=
                Some {| patch := VObj 2; memo := VObj 3; body := ∅ |};
              watching_tier :=
                Some {| raw := VStr "raw-event"; type := VStr "MODIFIED" |};
              changing_tier := Some ch |} in
  let K : kwdict := {[ "event" := AVal (VStr "stale") ]} in
  exists kw,
    call_build_kwargs (Some c) K = Ok kw
    /\ kw !! "reason" = Some (AVal (VStr "update"))
    /\ kw !! "event" = Some (AVal (VStr "update"))
    /\ kw !! "type" = Some (AVal (VStr "MODIFIED")).
Proof.
  intros ch c K.
  assert (Hmd : forall r, resource_tier c = Some r -> metadata_ok (body r)).
  { intros r [= <-]. left. reflexivity. }
  destruct (build_kwargs_changing_overlay c ch K eq_refl Hmd)
    as (kw & Hkw & Hreason & Hevent & _ & _ & _ & Hlook).
  exists kw. repeat split; try assumption.
  rewrite Hlook. reflexivity.
Defined.

Lemma metadata_field_absent (b : gmap string pyval) (field : string) :
  b !! "metadata" = None
  \/ (exists md, b !! "metadata" = Some (VDict md) /\ md !! field = None) ->
  metadata_field b field = VNone.
Proof.
  unfold metadata_field. intros [-> | (md & -> & ->)]; reflexivity.
Qed.

Lemma metadata_field_present (b md : gmap string pyval) (field : string)
    (v : pyval) :
  b !! "metadata" = Some (VDict md) -> md !! field = Some v ->
  metadata_field b field = v.
Proof. unfold metadata_field. by intros -> ->. Qed.

(** C9: for a cause of the Resource tier whose body has no [metadata], or
    whose [metadata] mapping misses any of [uid], [name], [namespace],
    [build_kwargs] does not raise; the three entries are read with
    defaults, and a missing field gives [None]. *)
Theorem build_kwargs_defensive_metadata (c : cause) (r : resource_fields)
    (K : kwdict) (kwargs : nat) (h : store) :
  resource_tier c = Some r ->
  metadata_ok (body r) ->
  is_Ok (build_kwargs (Some c) kwargs h).1 = true
  /\ exists kw,
      call_build_kwargs (Some c) K = Ok kw
      /\ (forall field, field ∈ ["uid"; "name"; "namespace"] ->
          kw !! field = Some (AVal (metadata_field (body r) field))
          /\ ((body r !! "metadata" = None
               \/ exists md, body r !! "metadata" = Some (VDict md)
                             /\ md !! field = None) ->
              kw !! field = Some (AVal VNone))).
Proof.
  intros Hr Hmd.
  assert (Hall : forall r', resource_tier c = Some r' -> metadata_ok (body r')).
  { intros r' Hr'. congruence. }
  split.
  - pose proof (build_kwargs_spec (Some c) kwargs h) as H.
    rewrite tier_items_ok in H by done. by rewrite H.
  - destruct (call_build_kwargs_lookup c K Hall) as (kw & Hkw & Hlook).
    exists kw. split; [exact Hkw|].
    assert (Hfield : forall field, field ∈ ["uid"; "name"; "namespace"] ->
              kw !! field = Some (AVal (metadata_field (body r) field))).
    { intros field Hin. rewrite Hlook, Hr.
      rewrite !elem_of_cons in Hin.
      destruct Hin as [-> | [-> | [-> | Hin]]];
        [| | |by apply elem_of_nil in Hin];
        destruct (changing_tier c), (watching_tier c); reflexivity. }
    intros field Hin. split; [by apply Hfield|].
    intros Habs. rewrite Hfield by done.
    by rewrite metadata_field_absent.
Qed.

Lemma build_kwargs_defensive_metadata_witness :
  let r := {| patch := VObj 2; memo := VObj 3;
              body := {[ "metadata" := VDict {[ "name" := VStr "obj" ]} ]} |} in
  let c := ResourceCause (VObj 1) r in
  is_Ok (build_kwargs (Some c) 0 {[ 0 := ∅ ]}).1 = true
  /\ exists kw,
      call_build_kwargs (Some c) ∅ = Ok kw
      /\ kw !! "uid" = Some (AVal VNone)
      /\ kw !! "name" = Some (AVal (VStr "obj")).
Proof.
  intros r c.
  assert (Hmd : metadata_ok (body r)).
  { right. eexists. apply lookup_singleton_eq. }
  destruct (build_kwargs_defensive_metadata c r ∅ 0 {[ 0 := ∅ ]}
              eq_refl Hmd) as (Hok & kw & Hkw & Hfields).
  split; [exact Hok|]. exists kw. split; [exact Hkw|]. split.
  - apply (Hfields "uid"); [by repeat constructor|].
    right. eexists. split; [apply lookup_singleton_eq|]. reflexivity.
  - destruct (Hfields "name") as [-> _]; [by repeat constructor|].
    reflexivity.
Defined.

(** ** [is_async_fn] *)

Lemma is_async_fn_step (depth : nat) (heap : objects) (fn next : nat) :
  inner_target heap fn = Some next ->
  is_async_fn (S depth) heap fn = is_async_fn depth heap next.
Proof.
  unfold inner_target. simpl.
  destruct (heap fn) as [|func ? ?|[wrapped|] ?]; intros [= <-] || intros [=];
    reflexivity.
Qed.

Lemma is_async_fn_core (depth : nat) (heap : objects) (fn : nat) :
  inner_target heap fn = None ->
  is_async_fn (S depth) heap fn = Ok (natively_suspending heap fn).
Proof.
  unfold inner_target, natively_suspending. simpl.
  destruct (heap fn) as [|func ? ?|[wrapped|] ?]; intros [=]; reflexivity.
Qed.

Lemma is_async_fn_resolves (heap : objects) (n : nat) :
  forall fn core depth,
    resolves_to heap n fn core -> n < depth ->
    is_async_fn depth heap fn = Ok (natively_suspending heap core).
Proof.
  induction n as [|n IH]; intros fn core depth [Hchain Hend] Hlt;
    destruct depth as [|depth]; try lia.
  - simpl in Hchain. subst fn. by apply is_async_fn_core.
  - destruct Hchain as (next & Hnext & Hchain).
    rewrite (is_async_fn_step _ _ _ _ Hnext).
    apply IH; [by split | lia].
Qed.

Lemma is_async_fn_deeper (heap : objects) (depth : nat) :
  forall fn b, is_async_fn depth heap fn = Ok b ->
               is_async_fn (S depth) heap fn = Ok b.
Proof.
  induction depth as [|depth IH]; intros fn b; [discriminate|].
  destruct (inner_target heap fn) as [next|] eqn:Hnext.
  - rewrite !(is_async_fn_step _ _ _ _ Hnext). apply IH.
  - by rewrite !is_async_fn_core.
Qed.

Lemma unresolvable_next (heap : objects) (fn next : nat) :
  inner_target heap fn = Some next -> unresolvable heap fn ->
  unresolvable heap next.
Proof.
  intros Hnext Hun n. destruct (Hun (S n)) as (x & y & Hchain & Hx).
  destruct Hchain as (next' & Hnext' & Hchain).
  exists x, y. split; [|done]. congruence.
Qed.

Lemma is_async_fn_unresolvable (heap : objects) (depth : nat) :
  forall fn, unresolvable heap fn ->
             is_async_fn depth heap fn = Raise RecursionError.
Proof.
  induction depth as [|depth IH]; intros fn Hun; [reflexivity|].
  destruct (Hun 0) as (x & next & Hx & Hnext). simpl in Hx. subst x.
  rewrite (is_async_fn_step _ _ _ _ Hnext).
  apply IH. by eapply unresolvable_next.
Qed.

(** C5: [is_async_fn(None)] is false; a partial is classified as its inner
    callable, whatever arguments it binds; an object with a [__wrapped__]
    back-reference is classified as the wrapped target; any other object
    is asynchronous iff it is a coroutine function; and through any number
    [n] of layers (three and more included) the answer is the
    classification of the innermost callable. *)
Theorem is_async_fn_classifies (heap : objects) (depth : nat) (fn : nat) :
  (heap fn = ONone -> is_async_fn (S depth) heap fn = Ok false)
  /\ (forall func args keywords,
        heap fn = OPartial func args keywords ->
        is_async_fn (S depth) heap fn = is_async_fn depth heap func
        /\ forall b, is_async_fn depth heap func = Ok b ->
                     is_async_fn (S depth) heap func = Ok b
                     /\ is_async_fn (S depth) heap fn = Ok b)
  /\ (forall wrapped c,
        heap fn = OCallable (Some wrapped) c ->
        is_async_fn (S depth) heap fn = is_async_fn depth heap wrapped
        /\ forall b, is_async_fn depth heap wrapped = Ok b ->
                     is_async_fn (S depth) heap wrapped = Ok b
                     /\ is_async_fn (S depth) heap fn = Ok b)
  /\ (forall c, heap fn = OCallable None c ->
                is_async_fn (S depth) heap fn = Ok c)
  /\ (forall n core, resolves_to heap n fn core -> n <= depth ->
                     is_async_fn (S depth) heap fn
                     = Ok (natively_suspending heap core)).
Proof.
  split; [|split; [|split; [|split]]].
  - intros H. simpl. by rewrite H.
  - intros func args keywords H.
    assert (Hstep : is_async_fn (S depth) heap fn
                    = is_async_fn depth heap func)
      by (simpl; by rewrite H).
    split; [exact Hstep|]. intros b Hb.
    split; [by apply is_async_fn_deeper | by rewrite Hstep].
  - intros wrapped c H.
    assert (Hstep : is_async_fn (S depth) heap fn
                    = is_async_fn depth heap wrapped)
      by (simpl; by rewrite H).
    split; [exact Hstep|]. intros b Hb.
    split; [by apply is_async_fn_deeper | by rewrite Hstep].
  - intros c H. simpl. by rewrite H.
  - intros n core Hres Hle. eapply is_async_fn_resolves; [done | lia].
Qed.

Lemma is_async_fn_classifies_witness :
  is_async_fn 4 three_layers 3 = Ok true
  /\ is_async_fn 4 three_layers 3 = is_async_fn 3 three_layers 2
  /\ is_async_fn 1 three_layers 7 = Ok false.
Proof.
  destruct (is_async_fn_classifies three_layers 3 3)
    as (_ & Hpartial & _ & _ & Hdeep).
  destruct (is_async_fn_classifies three_layers 0 7) as (Hnone & _).
  split; [|split].
  - apply (Hdeep 3 0); [|lia].
    split; [|reflexivity].
    repeat (eexists; split; [reflexivity|]). reflexivity.
  - exact (proj1 (Hpartial 2 [] {[ "b" := VNone ]} eq_refl)).
  - apply Hnone. reflexivity.
Defined.

(** C6: [is_async_fn] returns on every input: when the chain of partials
    and wrappers ends after [n] layers, the answer is a classification as
    soon as the interpreter allows [n + 1] nested calls; when the chain
    never ends (a malformed, cyclic chain), every run ends in
    [RecursionError] and never in a classification. *)
Theorem is_async_fn_terminates (heap : objects) (depth : nat) (fn : nat) :
  (exists r, is_async_fn depth heap fn = r
             /\ (r = Raise RecursionError \/ exists b, r = Ok b))
  /\ (forall n core, resolves_to heap n fn core -> n < depth ->
                     exists b, is_async_fn depth heap fn = Ok b)
  /\ (unresolvable heap fn ->
      is_async_fn depth heap fn = Raise RecursionError
      /\ forall b, is_async_fn depth heap fn <> Ok b).
Proof.
  split; [|split].
  - eexists; split; [reflexivity|].
    revert fn. induction depth as [|depth IH]; intros fn; simpl; [by left|].
    destruct (heap fn) as [|func ? ?|[wrapped|] ?]; eauto.
  - intros n core Hres Hlt. eexists. by eapply is_async_fn_resolves.
  - intros Hun. rewrite is_async_fn_unresolvable by done.
    split; [reflexivity | discriminate].
Qed.

Lemma is_async_fn_terminates_witness :
  is_async_fn 1000 self_wrapped 0 = Raise RecursionError
  /\ exists b, is_async_fn 4 three_layers 3 = Ok b.
Proof.
  split.
  - apply (is_async_fn_terminates self_wrapped 1000 0).
    intros n. exists 0, 0. split; [|reflexivity].
    induction n as [|n IH]; [reflexivity|].
    exists 0. split; [reflexivity | exact IH].
  - apply (proj1 (proj2 (is_async_fn_terminates three_layers 4 3)) 3 0);
      [|lia].
    split; [|reflexivity].
    repeat (eexists; split; [reflexivity|]). reflexivity.
Defined.

(** ** The [context] scope *)

Lemma for_each_app {S A} (xs ys : list A) (f : A -> M S unit) (s : S) :
  for_each (xs ++ ys) f s
  = bind (for_each xs f) (fun _ => for_each ys f) s.
Proof.
  revert s. induction xs as [|x xs IH]; intros s; simpl.
  - reflexivity.
  - unfold bind in *. destruct (f x s) as [[[]|e] s']; [apply IH | done].
Qed.

Lemma set_all_cons (var : nat) (val : pyval) (rest : list (nat * pyval))
    (s : ctx_state) :
  set_all ((var, val) :: rest) s
  = ((var, (var_set var val s).1) :: (set_all rest (var_set var val s).2).1,
     (set_all rest (var_set var val s).2).2).
Proof.
  simpl. by destruct (set_all rest _).
Qed.

(** Entering the scope sets the variables in sequence and nothing else. *)
Lemma set_all_state (values : list (nat * pyval)) :
  forall s,
    ctx_id (entered values s) = ctx_id s
    /\ ctx_used (entered values s) = ctx_used s
    /\ ctx_next (entered values s) = ctx_next s + length values
    /\ ctx_log (entered values s)
       = ctx_log s ++ ((fun vv => OpSet vv.1 vv.2) <$> values).
Proof.
  unfold entered.
  induction values as [|[var val] rest IH]; intros s.
  - simpl. by rewrite Nat.add_0_r, app_nil_r.
  - rewrite set_all_cons. cbn [snd].
    destruct (IH (var_set var val s).2) as (Hid & Hused & Hnext & Hlog).
    rewrite Hid, Hused, Hnext, Hlog. simpl.
    repeat split; [lia | by rewrite <- app_assoc].
Qed.

(** Leaving the scope, in the context it was entered in and with its
    tokens unused, resets every bound variable, last bound first. *)
Lemma reset_all_set_all (values : list (nat * pyval)) :
  forall s s2,
    ctx_id s2 = ctx_id s ->
    (forall t, ctx_next s <= t < ctx_next s + length values ->
               t ∉ ctx_used s2) ->
    exists s3,
      reset_all (set_all values s).1 s2 = (Ok tt, s3)
      /\ ctx_id s3 = ctx_id s2
      /\ ctx_next s3 = ctx_next s2
      /\ ctx_log s3 = ctx_log s2 ++ (OpReset <$> reverse values.*1)
      /\ (forall t, t ∈ ctx_used s3 <->
                    t ∈ ctx_used s2
                    \/ ctx_next s <= t < ctx_next s + length values)
      /\ (forall v, ctx_vals s3 !! v
                    = if decide (v ∈ values.*1) then ctx_vals s !! v
                      else ctx_vals s2 !! v).
Proof.
  induction values as [|[var val] rest IH]; intros s s2 Hctx Hfree.
  - exists s2. simpl. unfold reset_all. simpl.
    repeat split; try done.
    + by rewrite app_nil_r.
    + by left.
    + intros [H|H]; [done | lia].
  - rewrite set_all_cons. cbn [fst].
    unfold reset_all. rewrite reverse_cons, for_each_app.
    fold (reset_all (set_all rest (var_set var val s).2).1).
    destruct (IH (var_set var val s).2 s2) as
      (s3 & Hrun & Hid3 & Hnext3 & Hlog3 & Hused3 & Hvals3).
    { done. }
    { intros t Ht. apply Hfree. simpl in Ht |- *. lia. }
    unfold bind. rewrite Hrun. simpl for_each. unfold bind.
    assert (Hunused : ctx_next s ∉ ctx_used s3).
    { rewrite Hused3. intros [H|H].
      - revert H. apply Hfree. simpl. lia.
      - simpl in H. lia. }
    unfold var_reset at 1. cbn [fst snd tok_id tok_var tok_ctx tok_old
      var_set ctx_id ctx_vals ctx_used ctx_next ctx_log].
    rewrite decide_False by done.
    rewrite decide_True by done.
    rewrite decide_True by congruence.
    eexists. split; [reflexivity|]. simpl.
    split; [done|]. split; [done|]. split; [|split].
    + rewrite Hlog3, reverse_cons, fmap_app, app_assoc. done.
    + intros t. rewrite elem_of_union, elem_of_singleton, Hused3. simpl.
      split.
      * intros [->|[H|H]]; [right; lia | by left | right; lia].
      * intros [H|H]; [by right; left|].
        destruct (decide (t = ctx_next s)) as [->|Hne]; [by left|].
        right; right. lia.
    + intros v. destruct (decide (v = var)) as [->|Hne].
      * rewrite decide_True by (left).
        destruct (ctx_vals s !! var) as [x|] eqn:Hx.
        -- by rewrite lookup_insert_eq.
        -- by rewrite lookup_delete_eq.
      * assert (Hv : ctx_vals s3 !! v
                     = if decide (v ∈ rest.*1) then ctx_vals s !! v
                       else ctx_vals s2 !! v).
        { rewrite Hvals3. simpl. by rewrite lookup_insert_ne. }
        assert (Hlook : forall m : gmap nat pyval,
                  match ctx_vals s !! var with
                  | Some x => <[var := x]> m
                  | None => delete var m
                  end !! v = m !! v).
        { intros m. destruct (ctx_vals s !! var).
          - by rewrite lookup_insert_ne.
          - by rewrite lookup_delete_ne. }
        rewrite Hlook, Hv.
        destruct (decide (v ∈ rest.*1)) as [Hin|Hnin].
        -- rewrite decide_True; [done | by right].
        -- rewrite decide_False; [done|].
           intros Hin. apply elem_of_cons in Hin as [?|?]; done.
Qed.



Lemma var_reset_log (var : nat) (tok : token) (s : ctx_state) :
  ctx_log (var_reset var tok s).2 = ctx_log s ++ [OpReset var].
Proof.
  unfold var_reset. repeat case_decide; reflexivity.
Qed.

Lemma var_reset_raise (var : nat) (tok : token) (s s' : ctx_state) (e : exn) :
  var_reset var tok s = (Raise e, s') ->
  ctx_vals s' = ctx_vals s /\ ctx_used s' = ctx_used s.
Proof.
  unfold var_reset. repeat case_decide; intros [= <- <-]; done.
Qed.

Lemma for_each_reset_log (toks : list (nat * token)) :
  forall s s',
    for_each toks (fun vt => var_reset vt.1 vt.2) s = (Ok tt, s') ->
    ctx_log s' = ctx_log s ++ (OpReset <$> toks.*1).
Proof.
  induction toks as [|[var tok] toks IH]; intros s s'; simpl.
  - intros [= <-]. by rewrite app_nil_r.
  - unfold bind. pose proof (var_reset_log var tok s) as Hlog.
    destruct (var_reset var tok s) as [[[]|e] s1]; [|discriminate].
    intros H. rewrite (IH _ _ H). simpl in Hlog.
    by rewrite Hlog, <- app_assoc.
Qed.

(** C8, as the code has it: restoration stops at the first reset that
    raises.  That error is raised out of the scope in place of the block's
    own outcome, the resets before it have been carried out, and for the
    variables that remain no reset is attempted. *)
Theorem context_restore_stops_at_failure {A} (values : list (nat * pyval))
    (body : M ctx_state A) (s sa sb : ctx_state)
    (restored : list (nat * token)) (failing : nat * token)
    (remaining : list (nat * token)) (e : exn) :
  reverse (set_all values s).1 = restored ++ failing :: remaining ->
  for_each restored (fun vt => var_reset vt.1 vt.2) (body (entered values s)).2
    = (Ok tt, sa) ->
  var_reset failing.1 failing.2 sa = (Raise e, sb) ->
  context values body s = (Raise e, sb)
  /\ ctx_log sb = ctx_log (body (entered values s)).2
                  ++ (OpReset <$> (restored.*1 ++ [failing.1]))
  /\ ctx_vals sb = ctx_vals sa.
Proof.
  intros Hsplit Hdone Hfail.
  pose proof (for_each_reset_log _ _ _ Hdone) as Hlog.
  pose proof (var_reset_log failing.1 failing.2 sa) as Hlog'.
  rewrite Hfail in Hlog'. simpl in Hlog'.
  split; [|split].
  - revert Hsplit Hdone. unfold context, entered, try_finally, reset_all.
    destruct (set_all values s) as [toks s1]. cbn [fst snd].
    intros -> Hdone. destruct (body s1) as [r s2]. cbn [fst snd] in *.
    rewrite for_each_app. unfold bind. rewrite Hdone. simpl.
    unfold bind. by rewrite Hfail.
  - by rewrite Hlog', Hlog, fmap_app, app_assoc.
  - by apply var_reset_raise in Hfail as [? _].
Qed.

Lemma context_restore_stops_at_failure_witness :
  let values := [(0, VStr "a"); (1, VStr "b")] in
  let out := context values leave_in_other_context empty_context in
  out.1 = Raise ValueError
  /\ ctx_log out.2
     = [OpSet 0 (VStr "a"); OpSet 1 (VStr "b"); OpReset 1].
Proof.
  intros values out.
  destruct (context_restore_stops_at_failure values leave_in_other_context
              empty_context
              (leave_in_other_context (entered values empty_context)).2
              (var_reset 1 {| tok_id := 1; tok_var := 1; tok_ctx := 0;
                              tok_old := None |}
                 (leave_in_other_context (entered values empty_context)).2).2
              []
              (1, {| tok_id := 1; tok_var := 1; tok_ctx := 0;
                     tok_old := None |})
              [(0, {| tok_id := 0; tok_var := 0; tok_ctx := 0;
                      tok_old := None |})]
              ValueError)
    as (Hout & Hlog & _); try reflexivity.
  subst out. rewrite Hout. split; [reflexivity|].
  etransitivity; [exact Hlog | reflexivity].
Defined.

(** C8, as the claim has it, fails: a scope over two variables that is
    left under another context raises at its first reset and never
    attempts the reset of the variable bound first. *)
Lemma context_restoration_not_exception_safe : ~ restoration_exception_safe.
Proof.
  intros Hsafe.
  specialize (Hsafe [(0, VStr "a"); (1, VStr "b")] leave_in_other_context
                empty_context 0).
  assert (Hin : 0 ∈ [(0, VStr "a"); (1, VStr "b")].*1) by (simpl; left).
  specialize (Hsafe Hin).
  change (OpReset 0 ∈ [OpReset 1]) in Hsafe.
  apply list_elem_of_singleton in Hsafe. discriminate.
Qed.

(** ** [invoke] *)

Lemma wait_loop_done (thunk done : result retval) (sched : list event)
    (cancellation : option exn) :
  wait_loop thunk sched (Some done) cancellation
  = (after_wait done cancellation, true).
Proof. by destruct sched. Qed.

(** Cancelled waits only record the cancellation and wait again. *)
Lemma wait_loop_cancelled (thunk : result retval) (cs : list nat) :
  forall (sched : list event) (cancellation : option exn),
    wait_loop thunk ((Cancelled <$> cs) ++ sched) None cancellation
    = wait_loop thunk sched None
        (match last_cancellation cs with
         | Some c => Some c
         | None => cancellation
         end).
Proof.
  unfold last_cancellation.
  induction cs as [|c cs IH]; intros sched cancellation; [done|].
  cbn [fmap list_fmap app wait_loop]. rewrite IH.
  destruct cs as [|c' cs]; [done|].
  change (last (c :: c' :: cs)) with (last (c' :: cs)).
  destruct (last_is_Some (c' :: cs)) as [_ [x ->]]; done.
Qed.

(** The loop is left exactly when the schedule brings a completion, and
    then the worker has run. *)
Lemma wait_loop_ran (thunk : result retval) (sched : list event) :
  forall cancellation,
    match wait_loop thunk sched None cancellation with
    | (Waiting _, ran) => ran = false /\ completion sched = None
    | (_, ran) => ran = true /\ is_Some (completion sched)
    end.
Proof.
  induction sched as [|[c| |c] sched IH]; intros cancellation; simpl.
  - done.
  - apply IH.
  - destruct thunk as [v|e].
    + rewrite wait_loop_done. destruct cancellation; simpl; eauto.
    + destruct (is_CancelledError e); [|eauto].
      rewrite wait_loop_done. simpl; eauto.
  - rewrite wait_loop_done. simpl. eauto.
Qed.

Lemma invoke_sync (heap : objects) (depth : nat) (fn : handler)
    (args : list pyval) (cause : option cause) (K kw : kwdict)
    (ambient : gmap nat pyval) (sched : list event) :
  call_build_kwargs cause K = Ok kw ->
  is_async_fn depth heap (fn_id fn) = Ok false ->
  invoke heap depth fn args cause K ambient sched
  = ((wait_loop (call fn ambient args kw) sched None None).1,
     if (wait_loop (call fn ambient args kw) sched None None).2
     then [the_call fn OnWorker ambient args kw] else []).
Proof.
  intros Hkw Hsync. unfold invoke. rewrite Hkw, Hsync.
  by destruct (wait_loop _ _ _ _).
Qed.

Lemma invoke_async (heap : objects) (depth : nat) (fn : handler)
    (args : list pyval) (cause : option cause) (K kw : kwdict)
    (ambient : gmap nat pyval) (sched : list event) :
  call_build_kwargs cause K = Ok kw ->
  is_async_fn depth heap (fn_id fn) = Ok true ->
  invoke heap depth fn args cause K ambient sched
  = (await_call (call fn ambient args kw),
     [the_call fn OnLoop ambient args kw]).
Proof. intros Hkw Hasync. unfold invoke. by rewrite Hkw, Hasync. Qed.

(** What holds of the deferred cancellation when the handler returns: for
    a blocking handler, every cancellation that arrives while the
    handle is pending is recorded and the wait is entered again: as long
    as nothing but cancellations arrive, [invoke] neither returns nor
    raises.  When the handle completes with a result after at least one
    recorded cancellation, [invoke] raises the cancellation recorded last
    and drops the result; with no cancellation recorded it returns the
    result.  A cancellation that arrives as the handle completes is raised
    as well.  Whenever [invoke] raises a recorded cancellation, the handle
    has completed: the handler has run, once. *)
Theorem invoke_defers_cancellation (heap : objects) (depth : nat)
    (fn : handler) (args : list pyval) (cause : option cause)
    (K kw : kwdict) (ambient : gmap nat pyval)
    (cs : list nat) (rest : list event) :
  call_build_kwargs cause K = Ok kw ->
  is_async_fn depth heap (fn_id fn) = Ok false ->
  let run := invoke heap depth fn args cause K ambient in
  let once := [the_call fn OnWorker ambient args kw] in
  run (Cancelled <$> cs) = (Waiting (last_cancellation cs), [])
  /\ (forall v, call fn ambient args kw = Ok v ->
                run ((Cancelled <$> cs) ++ Completed :: rest)
                = (match last_cancellation cs with
                   | Some c => RaisedCancellation c
                   | None => Returned v
                   end, once))
  /\ (forall c, run ((Cancelled <$> cs) ++ CancelledAtCompletion c :: rest)
                = (RaisedCancellation (CancelledError c), once))
  /\ (forall sched c, (run sched).1 = RaisedCancellation c ->
                      (run sched).2 = once /\ is_Some (completion sched)).
Proof.
  intros Hkw Hsync run once. subst run once.
  split; [|split; [|split]].
  - rewrite (invoke_sync _ _ _ _ _ _ kw) by done.
    rewrite <- (app_nil_r (Cancelled <$> cs)), wait_loop_cancelled.
    simpl. by destruct (last_cancellation cs).
  - intros v Hcall. rewrite (invoke_sync _ _ _ _ _ _ kw) by done.
    rewrite wait_loop_cancelled. simpl. rewrite Hcall, wait_loop_done.
    by destruct (last_cancellation cs).
  - intros c. rewrite (invoke_sync _ _ _ _ _ _ kw) by done.
    rewrite wait_loop_cancelled. simpl. by rewrite wait_loop_done.
  - intros sched c. rewrite (invoke_sync _ _ _ _ _ _ kw) by done.
    pose proof (wait_loop_ran (call fn ambient args kw) sched None) as H.
    destruct (wait_loop _ _ _ _) as [o ran]. simpl. intros ->.
    by destruct H as [-> ?].
Qed.

Lemma invoke_defers_cancellation_witness :
  let run := invoke plain_objects 10 succeeding_sync_handler [VStr "a"]
               None ∅ ∅ in
  run [Cancelled 1; Cancelled 2] = (Waiting (Some (CancelledError 2)), [])
  /\ (run [Cancelled 1; Cancelled 2; Completed]).1
     = RaisedCancellation (CancelledError 2)
  /\ (run [Completed]).1 = Returned (RVal (VStr "done")).
Proof.
  intros run.
  assert (Hkw : call_build_kwargs None ∅ = Ok ∅) by reflexivity.
  destruct (invoke_defers_cancellation plain_objects 10
              succeeding_sync_handler [VStr "a"] None ∅ ∅ ∅
              [1; 2] [] Hkw eq_refl)
    as (Hwait & Hdone & _).
  destruct (invoke_defers_cancellation plain_objects 10
              succeeding_sync_handler [VStr "a"] None ∅ ∅ ∅
              [] [] Hkw eq_refl)
    as (_ & Hplain & _).
  subst run. split; [exact Hwait|]. split.
  - exact (f_equal fst (Hdone _ eq_refl)).
  - exact (f_equal fst (Hplain _ eq_refl)).
Defined.





(** ** Hierarchies and the ambient owner *)

Lemma bind_raise {S A B} (m : M S A) (k : A -> M S B) (s s' : S) (e : exn) :
  m s = (Raise e, s') -> bind m k s = (Raise e, s').
Proof. unfold bind. by intros ->. Qed.

Lemma bind_ok {S A B} (m : M S A) (k : A -> M S B) (s s' : S) (a : A) :
  m s = (Ok a, s') -> bind m k s = k a s'.
Proof. unfold bind. by intros ->. Qed.

Lemma guess_owner_explicit (owner : gmap string pyval) (w : world) :
  _guess_owner (Some owner) w = (Ok owner, w).
Proof. reflexivity. Qed.

Lemma guess_owner_unusable (w : world) :
  ambient_unusable w ->
  _guess_owner None w = (Raise LookupError, after_read w).
Proof.
  unfold ambient_unusable, _guess_owner, bind, cause_var_get, after_read.
  destruct (cause_var w) as [[c|]|]; try reflexivity.
  intros Hc. by rewrite Hc.
Qed.

Lemma for_walk_keeps_ambient (nested : option (list (list string)))
    (act : obj_action) (w : world) :
  cause_var (for_walk nested act w).2 = cause_var w
  /\ cause_var_reads (for_walk nested act w).2 = cause_var_reads w.
Proof.
  unfold for_walk. by destruct (dicts_walk.walk _ _).
Qed.

(** With the owner absent and no usable ambient cause, every operation
    that defaults its owner raises [LookupError] and has changed no
    target. *)
Lemma hierarchy_lookup_error_before_change
    (build_owner_reference : gmap string pyval -> result (gmap string pyval))
    (forced strict : bool) (nested : option (list (list string)))
    (w : world) :
  ambient_unusable w ->
  append_owner_reference build_owner_reference None w
  = (Raise LookupError, after_read w)
  /\ remove_owner_reference build_owner_reference None w
     = (Raise LookupError, after_read w)
  /\ adopt build_owner_reference None nested w
     = (Raise LookupError, after_read w)
  /\ harmonize_naming VNone forced strict w = (Raise LookupError, after_read w)
  /\ adjust_namespace VNone forced w = (Raise LookupError, after_read w)
  /\ targets (after_read w) = targets w.
Proof.
  intros Hw. pose proof (guess_owner_unusable w Hw) as Hguess.
  unfold append_owner_reference, remove_owner_reference, adopt,
    harmonize_naming, adjust_namespace.
  repeat split; repeat (first [exact Hguess | apply bind_raise]).
Qed.

(** With an explicit owner, [append_owner_reference] and
    [remove_owner_reference] do not read the ambient variable. *)
Lemma explicit_owner_not_consulted
    (build_owner_reference : gmap string pyval -> result (gmap string pyval))
    (owner : gmap string pyval) (w : world) :
  cause_var_reads (append_owner_reference build_owner_reference
                     (Some owner) w).2 = cause_var_reads w
  /\ cause_var_reads (remove_owner_reference build_owner_reference
                        (Some owner) w).2 = cause_var_reads w.
Proof.
  unfold append_owner_reference, remove_owner_reference, bind, lift_result.
  simpl. destruct (build_owner_reference owner) as [ref|e]; simpl; [|done].
  split; apply for_walk_keeps_ambient.
Qed.

(** C10, at the input where the code departs from it: [adopt] with an
    explicit owner that has no [metadata.namespace].  The owner reference
    is appended and the names are harmonised from the explicit owner; then
    [adjust_namespace] is called with [namespace=None], takes that for "no
    namespace given" and asks [_guess_owner(None)]: the ambient variable
    is read although the owner was supplied, and with no usable ambient
    cause [LookupError] is raised after the targets have been modified. *)
Theorem adopt_explicit_owner_consults_ambient
    (build_owner_reference : gmap string pyval -> result (gmap string pyval))
    (owner : gmap string pyval) (nested : option (list (list string)))
    (name : pyval) (w w1 w2 : world) :
  append_owner_reference build_owner_reference (Some owner) w = (Ok tt, w1) ->
  owner_metadata owner "name" VNone = Ok name ->
  harmonize_naming name false false w1 = (Ok tt, w2) ->
  owner_metadata owner "namespace" VNone = Ok VNone ->
  ambient_unusable w2 ->
  adopt build_owner_reference (Some owner) nested w
  = (Raise LookupError, after_read w2).
Proof.
  intros Happend Hname Hharmonize Hnamespace Hambient.
  unfold adopt.
  rewrite (bind_ok _ _ w w owner) by reflexivity.
  rewrite (bind_ok _ _ w w1 tt) by exact Happend.
  rewrite (bind_ok _ _ w1 w1 name) by (unfold lift_result; by rewrite Hname).
  rewrite (bind_ok _ _ w1 w2 tt) by exact Hharmonize.
  rewrite (bind_ok _ _ w2 w2 VNone)
    by (unfold lift_result; by rewrite Hnamespace).
  apply bind_raise. unfold adjust_namespace.
  do 2 apply bind_raise. by apply guess_owner_unusable.
Qed.

Lemma adopt_explicit_owner_consults_ambient_witness :
  let out := adopt example_owner_reference (Some cluster_scoped_owner) None
               outside_handler in
  out.1 = Raise LookupError
  /\ cause_var_reads out.2 = 1
  /\ targets out.2
     = VList [VDict {[ "metadata" :=
                VDict (<["generateName" := VStr "parent-"]>
                       {[ "ownerReferences" :=
                            VList [VDict
                              (<["controller" := VBool true]>
                              (<["blockOwnerDeletion" := VBool true]>
                              (<["apiVersion" := VStr "v1"]>
                              (<["kind" := VStr "Namespace"]>
                              (<["name" := VStr "parent"]>
                              (<["uid" := VStr "uid-1"]> ∅))))))] ]}) ]}].
Proof.
  intros out. subst out.
  rewrite (adopt_explicit_owner_consults_ambient example_owner_reference
             cluster_scoped_owner None (VStr "parent") outside_handler
             (append_owner_reference example_owner_reference
                (Some cluster_scoped_owner) outside_handler).2
             (harmonize_naming (VStr "parent") false false
                (append_owner_reference example_owner_reference
                   (Some cluster_scoped_owner) outside_handler).2).2).
  - split; [reflexivity|]. split; vm_compute; reflexivity.
  - vm_compute. reflexivity.
  - vm_compute. reflexivity.
  - vm_compute. reflexivity.
  - vm_compute. reflexivity.
  - vm_compute. exact I.
Defined.

(** The same call inside a handler of another resource: it succeeds, and
    the child gets the namespace of the ambient resource, not one of the
    owner it was given. *)
Example adopt_takes_namespace_of_ambient_cause :
  let out := adopt example_owner_reference (Some cluster_scoped_owner) None
               inside_other_handler in
  out.1 = Ok tt
  /\ cause_var_reads out.2 = 1
  /\ rbind (match targets out.2 with
            | VList [VDict child] => Ok child
            | _ => Raise TypeError
            end) (fun child => owner_metadata child "namespace" VNone)
     = Ok (VStr "ns2").
Proof. vm_compute. done. Qed.

(** ** More on [build_kwargs] *)

Lemma assoc_last_None (k : string) (items : list (string * arg)) :
  k ∉ items.*1 -> assoc_last k items = None.
Proof.
  induction items as [|[k' v] rest IH]; simpl; [done|].
  intros Hnin. apply not_elem_of_cons in Hnin as [Hne Hnin].
  rewrite IH by done. by rewrite decide_False.
Qed.

Lemma assoc_last_is_Some (k : string) (items : list (string * arg)) :
  is_Some (assoc_last k items) <-> k ∈ items.*1.
Proof.
  induction items as [|[k' v] rest IH]; simpl.
  - split; [by intros [? ?] | by intros ?%elem_of_nil].
  - rewrite elem_of_cons, <- IH.
    destruct (assoc_last k rest) as [w|].
    + split; [right|]; eauto.
    + destruct (decide (k = k')) as [->|Hne].
      * split; eauto.
      * split; [by intros [? ?] | intros [?|[? ?]]; done].
Qed.

Lemma call_build_kwargs_overlay (c : cause) (K : kwdict) :
  (forall r, resource_tier c = Some r -> metadata_ok (body r)) ->
  call_build_kwargs (Some c) K = Ok (update_items K (overlay_items c)).
Proof.
  intros Hmd. by rewrite call_build_kwargs_spec, tier_items_ok.
Qed.

Lemma overlay_keys_reserved (c : cause) (k : string) :
  k ∈ (overlay_items c).*1 -> k ∈ reserved_keys.
Proof.
  unfold overlay_items, overlay_of. rewrite !fmap_app, !elem_of_app.
  destruct (activity_tier c), (resource_tier c), (watching_tier c),
    (changing_tier c); simpl;
    rewrite ?elem_of_cons, ?elem_of_nil; unfold reserved_keys;
    intros H; repeat destruct H as [H|H]; subst;
    rewrite ?elem_of_cons; tauto.
Qed.

(** Explicit keyword arguments under names that no overlay uses reach the
    handler unchanged, whatever the cause. *)
Theorem build_kwargs_passes_other_keys (cause : option cause) (K : kwdict) :
  cause_metadata_ok cause ->
  exists kw,
    call_build_kwargs cause K = Ok kw
    /\ forall k, k ∉ reserved_keys -> kw !! k = K !! k.
Proof.
  intros Hok. destruct cause as [c|].
  - rewrite call_build_kwargs_overlay by eauto.
    eexists; split; [reflexivity|]. intros k Hk.
    rewrite update_items_lookup, assoc_last_None.
    + simpl. by destruct (K !! k).
    + intros Hin. by apply Hk, (overlay_keys_reserved c).
  - exists K. split; [|done]. by rewrite call_build_kwargs_spec.
Qed.

Lemma build_kwargs_passes_other_keys_witness :
  exists kw,
    call_build_kwargs
      (Some (ActivityCause (VObj 1) (VStr "startup")))
      {[ "retry" := AVal (VStr "3") ]} = Ok kw
    /\ kw !! "retry" = Some (AVal (VStr "3")).
Proof.
  destruct (build_kwargs_passes_other_keys
              (Some (ActivityCause (VObj 1) (VStr "startup")))
              {[ "retry" := AVal (VStr "3") ]}) as (kw & Hkw & Hpass).
  - intros c r [= <-]. discriminate.
  - exists kw. split; [exact Hkw|]. rewrite Hpass; [reflexivity|].
    unfold reserved_keys. rewrite !elem_of_cons, elem_of_nil.
    intros H. repeat destruct H as [H|H]; discriminate || done.
Defined.

(** The merged mapping has exactly the explicit names and the names of
    the overlays of the tiers that the cause satisfies: no tier adds a key
    for a cause that is not of that tier. *)
Theorem build_kwargs_keys (c : cause) (K : kwdict) :
  (forall r, resource_tier c = Some r -> metadata_ok (body r)) ->
  exists kw,
    call_build_kwargs (Some c) K = Ok kw
    /\ dom kw = dom K ∪ list_to_set (overlay_items c).*1.
Proof.
  intros Hmd. rewrite call_build_kwargs_overlay by done.
  eexists; split; [reflexivity|].
  apply set_eq. intros k.
  rewrite elem_of_dom, update_items_lookup, elem_of_union, elem_of_dom,
    elem_of_list_to_set, <- assoc_last_is_Some.
  cbn [first_of]. unfold is_Some.
  destruct (assoc_last k (overlay_items c)) as [a|], (K !! k) as [b|].
  - split; intros _; eauto.
  - split; intros _; eauto.
  - split; intros _; eauto.
  - split; [intros [? [=]] | intros [[? [=]]|[? [=]]]].
Qed.

Lemma build_kwargs_keys_witness :
  exists kw,
    call_build_kwargs (Some (BaseCause (VObj 1)))
      {[ "retry" := AVal VNone ]} = Ok kw
    /\ dom kw = {[ "retry"; "cause"; "logger" ]}.
Proof.
  destruct (build_kwargs_keys (BaseCause (VObj 1))
              {[ "retry" := AVal VNone ]}) as (kw & Hkw & Hdom).
  - intros r [=].
  - exists kw. split; [exact Hkw|]. rewrite Hdom.
    rewrite dom_singleton_L. simpl. set_solver.
Defined.

Lemma resource_items_raises (r : resource_fields) (e : exn) :
  resource_items r = Raise e
  <-> e = AttributeError /\ metadata_broken (body r).
Proof.
  unfold resource_items, py_get, metadata_broken. simpl.
  destruct (body r !! "metadata") as [v|]; simpl.
  - destruct v as [| | | | |md]; simpl;
      try (split; [intros [= <-]; split; [done|];
                   eexists; split; [done | discriminate]
                  | by intros [-> _]]).
    split; [discriminate|].
    intros (_ & v & [= <-] & Hnd). by destruct (Hnd md).
  - rewrite !lookup_empty. simpl. split; [discriminate|].
    by intros (_ & v & [=] & _).
Qed.

(** [build_kwargs] raises only for a cause of the Resource tier whose
    [body.metadata] is there and is no mapping, and what it raises then is
    the [AttributeError] of the chained [get]. *)
Theorem build_kwargs_raises_iff (cause : option cause) (K : kwdict) (e : exn) :
  call_build_kwargs cause K = Raise e
  <-> e = AttributeError
      /\ exists c r, cause = Some c /\ resource_tier c = Some r
                     /\ metadata_broken (body r).
Proof.
  rewrite call_build_kwargs_spec. unfold tier_items.
  destruct cause as [c|]; simpl.
  2: { split; [discriminate | by intros (_ & c & r & [=] & _)]. }
  destruct (resource_tier c) as [r|] eqn:Hr; simpl.
  2: { split; [discriminate|]. intros (_ & c' & r & [= <-] & Hr' & _).
       congruence. }
  pose proof (resource_items_raises r e) as Hres.
  destruct (resource_items r) as [items|e']; simpl.
  - split; [discriminate|].
    intros (He & c' & r' & [= <-] & Hr' & Hbroken).
    assert (r' = r) as -> by congruence.
    by pose proof (proj2 Hres (conj He Hbroken)).
  - split.
    + intros [= ->]. destruct (proj1 Hres eq_refl) as [He Hbroken].
      split; [done|]. by exists c, r.
    + intros (He & c' & r' & [= <-] & Hr' & Hbroken).
      assert (r' = r) as -> by congruence.
      by injection (proj2 Hres (conj He Hbroken)) as ->.
Qed.

Lemma build_kwargs_raises_iff_witness :
  call_build_kwargs
    (Some (ResourceCause (VObj 1)
             {| patch := VNone; memo := VNone;
                body := {[ "metadata" := VNone ]} |})) ∅
  = Raise AttributeError.
Proof.
  apply build_kwargs_raises_iff. split; [reflexivity|].
  eexists _, _. split; [reflexivity|]. split; [reflexivity|].
  exists VNone. split; [apply lookup_singleton_eq | discriminate].
Defined.

(** The Activity tier gives [activity]; the Watching tier gives [type],
    and [event] as the raw watch event unless the cause is also of the
    Changing tier. *)
Theorem build_kwargs_activity_watching (c : cause) (K : kwdict) :
  (forall r, resource_tier c = Some r -> metadata_ok (body r)) ->
  exists kw,
    call_build_kwargs (Some c) K = Ok kw
    /\ (forall a, activity_tier c = Some a ->
                  kw !! "activity" = Some (AVal a))
    /\ (forall w, watching_tier c = Some w ->
                  kw !! "type" = Some (AVal (type w))
                  /\ (changing_tier c = None ->
                      kw !! "event" = Some (AVal (raw w)))).
Proof.
  intros Hmd.
  destruct (call_build_kwargs_lookup c K Hmd) as (kw & Hkw & Hlook).
  exists kw. split; [exact Hkw|]. split.
  - intros a Ha. rewrite Hlook, Ha.
    destruct (changing_tier c), (watching_tier c), (resource_tier c);
      reflexivity.
  - intros w Hw. split.
    + rewrite Hlook, Hw. by destruct (changing_tier c).
    + intros Hch. rewrite Hlook, Hw, Hch. reflexivity.
Qed.

Lemma build_kwargs_activity_watching_witness :
  exists kw,
    call_build_kwargs
      (Some (ResourceWatchingCause (VObj 1)
               {| patch := VNone; memo := VNone; body := ∅ |}
               {| raw := VStr "raw-event"; type := VStr "ADDED" |}))
      {[ "event" := AVal (VStr "stale") ]} = Ok kw
    /\ kw !! "type" = Some (AVal (VStr "ADDED"))
    /\ kw !! "event" = Some (AVal (VStr "raw-event")).
Proof.
  destruct (build_kwargs_activity_watching
              (ResourceWatchingCause (VObj 1)
                 {| patch := VNone; memo := VNone; body := ∅ |}
                 {| raw := VStr "raw-event"; type := VStr "ADDED" |})
              {[ "event" := AVal (VStr "stale") ]})
    as (kw & Hkw & _ & Hwatch).
  - intros r [= <-]. by left.
  - exists kw. split; [exact Hkw|].
    destruct (Hwatch _ eq_refl) as [Htype Hevent].
    split; [exact Htype | exact (Hevent eq_refl)].
Defined.

(** ** More on [invoke] *)

(** When the arguments cannot be built or the handler cannot be
    classified, [invoke] raises that error and the handler is never
    called, whatever the event loop delivers. *)
Theorem invoke_raises_before_call (heap : objects) (depth : nat)
    (fn : handler) (args : list pyval) (cause : option cause) (K : kwdict)
    (ambient : gmap nat pyval) (sched : list event) :
  ((exists c r, cause = Some c /\ resource_tier c = Some r
                /\ metadata_broken (body r)) ->
   invoke heap depth fn args cause K ambient sched
   = (RaisedError AttributeError, []))
  /\ (cause_metadata_ok cause -> unresolvable heap (fn_id fn) ->
      invoke heap depth fn args cause K ambient sched
      = (RaisedError RecursionError, [])).
Proof.
  split.
  - intros Hbroken. unfold invoke.
    by rewrite (proj2 (build_kwargs_raises_iff cause K AttributeError)).
  - intros Hok Hun. unfold invoke.
    destruct (build_kwargs_passes_other_keys cause K Hok) as (kw & -> & _).
    by rewrite is_async_fn_unresolvable.
Qed.

Lemma invoke_raises_before_call_witness :
  invoke plain_objects 10 succeeding_sync_handler []
    (Some (ResourceCause (VObj 1)
             {| patch := VNone; memo := VNone;
                body := {[ "metadata" := VStr "oops" ]} |}))
    ∅ ∅ [Completed]
  = (RaisedError AttributeError, [])
  /\ invoke self_wrapped 1000 succeeding_sync_handler [] None ∅ ∅ [Completed]
     = (RaisedError RecursionError, []).
Proof.
  split.
  - apply invoke_raises_before_call.
    eexists _, _. split; [reflexivity|]. split; [reflexivity|].
    exists (VStr "oops"). split; [apply lookup_singleton_eq | discriminate].
  - apply invoke_raises_before_call.
    + intros c r [=].
    + intros n. exists 0, 0. split; [|reflexivity].
      induction n as [|n IH]; [reflexivity|].
      exists 0. split; [reflexivity | exact IH].
Defined.

(** A handler whose chain of partials and wrappers ends in a coroutine
    function is called once, in the event loop, and awaited there: the
    outcome does not depend on what the pool's schedule would deliver, an
    awaited value is returned, and a call that returns no awaitable ends in
    [TypeError]. *)
Theorem invoke_async_in_loop (heap : objects) (depth n : nat) (core : nat)
    (fn : handler) (args : list pyval) (cause : option cause)
    (K kw : kwdict) (ambient : gmap nat pyval) (sched : list event) :
  call_build_kwargs cause K = Ok kw ->
  resolves_to heap n (fn_id fn) core ->
  natively_suspending heap core = true ->
  n < depth ->
  invoke heap depth fn args cause K ambient sched
  = invoke heap depth fn args cause K ambient []
  /\ (invoke heap depth fn args cause K ambient sched).2
     = [the_call fn OnLoop ambient args kw]
  /\ (forall v, call fn ambient args kw = Ok (RAwaitable (Ok v)) ->
                (invoke heap depth fn args cause K ambient sched).1
                = Returned (RVal v))
  /\ (forall v, call fn ambient args kw = Ok (RVal v) ->
                (invoke heap depth fn args cause K ambient sched).1
                = RaisedError TypeError).
Proof.
  intros Hkw Hres Hcore Hlt.
  assert (Hasync : is_async_fn depth heap (fn_id fn) = Ok true).
  { rewrite <- Hcore. by eapply is_async_fn_resolves. }
  rewrite !(invoke_async _ _ _ _ _ _ kw) by done. simpl.
  repeat split; by intros v ->.
Qed.

Lemma invoke_async_in_loop_witness :
  (invoke three_layers 10
     {| fn_id := 3; call := fun _ _ _ => Ok (RAwaitable (Ok (VStr "42"))) |}
     [] None ∅ ∅ [Cancelled 1; Completed]).1
  = Returned (RVal (VStr "42")).
Proof.
  refine (proj1 (proj2 (proj2 (invoke_async_in_loop three_layers 10 3 0
            {| fn_id := 3;
               call := fun _ _ _ => Ok (RAwaitable (Ok (VStr "42"))) |}
            [] None ∅ ∅ ∅ [Cancelled 1; Completed] eq_refl _ eq_refl _)))
            (VStr "42") eq_refl).
  - split; [|reflexivity].
    repeat (eexists; split; [reflexivity|]). reflexivity.
  - lia.
Defined.

(** The classification looks through a wrapper and never at it: a
    coroutine function that carries a [__wrapped__] reference to a
    blocking function is run on the pool like a blocking handler, and the
    awaitable its call returns is handed back without being awaited. *)
Theorem invoke_wrapper_convention_ignored (heap : objects) (depth n : nat)
    (wrapped core : nat) (fn : handler) (args : list pyval)
    (cause : option cause) (K kw : kwdict) (ambient : gmap nat pyval)
    (outcome : result pyval) (rest : list event) :
  call_build_kwargs cause K = Ok kw ->
  heap (fn_id fn) = OCallable (Some wrapped) true ->
  resolves_to heap n wrapped core ->
  natively_suspending heap core = false ->
  S n < depth ->
  call fn ambient args kw = Ok (RAwaitable outcome) ->
  is_async_fn depth heap (fn_id fn) = Ok false
  /\ invoke heap depth fn args cause K ambient (Completed :: rest)
     = (Returned (RAwaitable outcome), [the_call fn OnWorker ambient args kw]).
Proof.
  intros Hkw Hfn Hres Hcore Hlt Hcall.
  assert (Hsync : is_async_fn depth heap (fn_id fn) = Ok false).
  { rewrite <- Hcore. apply (is_async_fn_resolves heap (S n)); [|done].
    destruct Hres as [Hchain Hend]. split; [|done].
    exists wrapped. split; [|done]. unfold inner_target. by rewrite Hfn. }
  split; [done|].
  rewrite (invoke_sync _ _ _ _ _ _ kw) by done.
  simpl. rewrite Hcall. by rewrite wait_loop_done.
Qed.

Lemma invoke_wrapper_convention_ignored_witness :
  let heap : objects := fun id =>
    match id with
    | 0 => OCallable None false
    | _ => OCallable (Some 0) true
    end in
  invoke heap 10
    {| fn_id := 1; call := fun _ _ _ => Ok (RAwaitable (Ok VNone)) |}
    [] None ∅ ∅ [Completed]
  = (Returned (RAwaitable (Ok VNone)),
     [{| called_fn := 1; called_on := OnWorker; called_context := ∅;
         called_args := []; called_kwargs := ∅ |}]).
Proof.
  intros heap.
  refine (proj2 (invoke_wrapper_convention_ignored heap 10 0 0 0
            {| fn_id := 1; call := fun _ _ _ => Ok (RAwaitable (Ok VNone)) |}
            [] None ∅ ∅ ∅ (Ok VNone) [] eq_refl eq_refl _ eq_refl _ eq_refl)).
  - split; reflexivity.
  - lia.
Defined.

(** ** More on the [context] scope *)

Lemma set_all_app (a b : list (nat * pyval)) (s : ctx_state) :
  set_all (a ++ b) s
  = ((set_all a s).1 ++ (set_all b (entered a s)).1,
     entered b (entered a s)).
Proof.
  unfold entered. revert s.
  induction a as [|[var val] a IH]; intros s.
  - simpl. by destruct (set_all b s).
  - rewrite <- app_comm_cons, !set_all_cons, IH. reflexivity.
Qed.

(** Inside the scope every bound variable reads the value bound to it
    last, and every other variable reads what it read before. *)
Theorem context_binds_in_sequence (values : list (nat * pyval))
    (s : ctx_state) (var : nat) :
  ctx_vals (entered values s) !! var
  = match last_bound var values with
    | Some v => Some v
    | None => ctx_vals s !! var
    end.
Proof.
  unfold entered. revert s.
  induction values as [|[var' val] rest IH]; intros s; [done|].
  rewrite set_all_cons. cbn [snd last_bound]. rewrite IH.
  destruct (last_bound var rest) as [v|]; [done|]. simpl.
  destruct (decide (var = var')) as [->|Hne].
  - by rewrite lookup_insert_eq.
  - by rewrite lookup_insert_ne.
Qed.

Lemma context_unfold {A} (values : list (nat * pyval)) (body : M ctx_state A)
    (s : ctx_state) :
  context values body s
  = try_finally body (reset_all (set_all values s).1) (entered values s).
Proof. unfold context, entered. by destruct (set_all values s). Qed.

Lemma reset_all_app (ta tb : list (nat * token)) (s : ctx_state) :
  reset_all (ta ++ tb) s
  = bind (reset_all tb) (fun _ => reset_all ta) s.
Proof. unfold reset_all. by rewrite reverse_app, for_each_app. Qed.

Lemma try_finally_nested {S A} (body : M S A) (fin1 fin2 : M S unit)
    (s s' : S) :
  fin1 (body s).2 = (Ok tt, s') ->
  try_finally body (bind fin1 (fun _ => fin2)) s
  = try_finally (try_finally body fin1) fin2 s.
Proof.
  unfold try_finally, bind. destruct (body s) as [r s1]. simpl.
  by intros ->.
Qed.

(** One scope over the bindings [outer ++ inner] is the same as a scope
    over [inner] nested in a scope over [outer], for every block that ends
    in the context it started in and leaves the scopes' tokens alone. *)
Theorem context_nests {A} (outer inner : list (nat * pyval))
    (body : M ctx_state A) (s : ctx_state) :
  block_respects_scope (outer ++ inner) body s ->
  context (outer ++ inner) body s
  = context outer (context inner body) s.
Proof.
  intros [Hctx Hfree].
  destruct (set_all_state outer s) as (Hid1 & Hused1 & Hnext1 & _).
  assert (Hentered : entered (outer ++ inner) s
                     = entered inner (entered outer s)).
  { unfold entered at 1. by rewrite set_all_app. }
  rewrite Hentered in Hctx, Hfree.
  destruct (reset_all_set_all inner (entered outer s)
              (body (entered inner (entered outer s))).2)
    as (s3 & Hrun & _).
  { by rewrite Hid1. }
  { intros t Ht. apply Hfree. rewrite Hnext1 in Ht.
    rewrite length_app. lia. }
  rewrite !context_unfold, Hentered, set_all_app. cbn [fst].
  transitivity
    (try_finally
       (try_finally body (reset_all (set_all inner (entered outer s)).1))
       (reset_all (set_all outer s).1) (entered inner (entered outer s))).
  - rewrite <- (try_finally_nested _ _ _ _ s3) by exact Hrun.
    unfold try_finally. destruct (body _) as [r s2].
    by rewrite reset_all_app.
  - unfold try_finally at 1 3. by rewrite context_unfold.
Qed.

Lemma context_nests_witness :
  context [(5, VStr "a"); (6, VStr "b")] (ret tt) empty_context
  = context [(5, VStr "a")] (context [(6, VStr "b")] (ret tt)) empty_context.
Proof.
  apply (context_nests [(5, VStr "a")] [(6, VStr "b")] (ret tt) empty_context).
  split; [reflexivity|]. intros t _. simpl. apply not_elem_of_empty.
Defined.

(** ** What the hierarchy functions do to the objects *)

Lemma with_nested_None (act : obj_action) (obj : gmap string pyval) :
  dicts_walk.with_nested None act obj = act obj.
Proof.
  unfold dicts_walk.with_nested, bind. simpl.
  by destruct (act obj) as [[[]|e] obj'].
Qed.

(** A loop whose body succeeds on every object of a list has run the body
    on each of them. *)
Lemma walk_many (act : obj_action)
    (f : gmap string pyval -> gmap string pyval)
    (objs : list (gmap string pyval)) :
  (forall o, o ∈ objs -> act o = (Ok tt, f o)) ->
  dicts_walk.walk (dicts_walk.with_nested None act) (many objs)
  = (Ok tt, many (f <$> objs)).
Proof.
  intros Hact. unfold many. cbn [dicts_walk.walk].
  match goal with
  | |- (let '(_, _) := ?F _ in _) = _ => set (each := F)
  end.
  assert (Heach : each (VDict <$> objs) = (Ok tt, VDict <$> (f <$> objs))).
  { induction objs as [|o objs IH]; [done|].
    change (each (VDict <$> o :: objs))
      with (match dicts_walk.walk (dicts_walk.with_nested None act) (VDict o)
            with
            | (Ok _, o') =>
                let '(r, rest') := each (VDict <$> objs) in (r, o' :: rest')
            | (Raise e, o') => (Raise e, o' :: (VDict <$> objs))
            end).
    cbn [dicts_walk.walk].
    rewrite with_nested_None, (Hact o) by left.
    rewrite IH; [done|]. intros o' Ho'. apply Hact. by right. }
  by rewrite Heach.
Qed.

Lemma for_walk_many (act : obj_action)
    (f : gmap string pyval -> gmap string pyval)
    (objs : list (gmap string pyval)) (w : world) :
  (forall o, o ∈ objs -> act o = (Ok tt, f o)) ->
  targets w = many objs ->
  for_walk None act w = (Ok tt, set_targets (many (f <$> objs)) w).
Proof.
  intros Hact Htargets. unfold for_walk.
  by rewrite Htargets, (walk_many act f).
Qed.

Lemma for_walk_one (act : obj_action) (obj : gmap string pyval) (w : world) :
  targets w = VDict obj ->
  for_walk None act w
  = ((act obj).1, set_targets (VDict (act obj).2) w).
Proof.
  intros Htargets. unfold for_walk. rewrite Htargets. simpl.
  rewrite with_nested_None. by destruct (act obj).
Qed.

Lemma metadata_ok_default (obj : gmap string pyval) :
  metadata_ok obj ->
  default (VDict ∅) (obj !! "metadata") = VDict (obj_metadata obj).
Proof.
  unfold obj_metadata. by intros [-> | [md ->]].
Qed.

Lemma with_metadata_ok (err : exn) (act : obj_action)
    (obj : gmap string pyval) :
  metadata_ok obj ->
  with_metadata err act obj
  = ((act (obj_metadata obj)).1,
     <["metadata" := VDict (act (obj_metadata obj)).2]> obj).
Proof.
  intros Hok. unfold with_metadata. rewrite metadata_ok_default by done.
  by destruct (act (obj_metadata obj)).
Qed.

Lemma obj_metadata_insert (md obj : gmap string pyval) :
  obj_metadata (<["metadata" := VDict md]> obj) = md.
Proof. unfold obj_metadata. by rewrite lookup_insert_eq. Qed.

Lemma same_but_insert (field : string) (v : pyval)
    (obj : gmap string pyval) :
  same_but field obj
    (<["metadata" := VDict (<[field := v]> (obj_metadata obj))]> obj).
Proof.
  split.
  - intros k Hk. by rewrite lookup_insert_ne.
  - intros k Hk. rewrite obj_metadata_insert. by rewrite lookup_insert_ne.
Qed.

Lemma matching_refs_filter (owner_ref : gmap string pyval) (uid : pyval)
    (refs : list pyval) :
  owner_ref !! "uid" = Some uid ->
  Forall is_mapping refs ->
  matching_refs owner_ref refs = Ok (List.filter (refers_to uid) refs).
Proof.
  intros Huid Hrefs. induction Hrefs as [|ref refs [d ->] _ IH]; [done|].
  simpl. unfold py_getitem. rewrite Huid, IH. simpl.
  destruct (decide (default VNone (d !! "uid") = uid)) as [Heq|Hne].
  - by rewrite bool_decide_true.
  - by rewrite bool_decide_false.
Qed.

Lemma references_ok_default (obj : gmap string pyval) :
  references_ok obj ->
  default (VList []) (obj_metadata obj !! "ownerReferences")
  = VList (owner_references obj)
  /\ Forall is_mapping (owner_references obj).
Proof.
  unfold owner_references. intros [_ [-> | (refs & -> & Hrefs)]]; by split.
Qed.

Lemma owner_references_set (refs : list pyval) (obj : gmap string pyval) :
  owner_references (set_references refs obj) = refs.
Proof.
  unfold owner_references, set_references.
  by rewrite obj_metadata_insert, lookup_insert_eq.
Qed.

Lemma set_references_twice (refs refs' : list pyval)
    (obj : gmap string pyval) :
  set_references refs (set_references refs' obj) = set_references refs obj.
Proof.
  unfold set_references.
  by rewrite obj_metadata_insert, !insert_insert_eq.
Qed.

Lemma references_ok_set (refs : list pyval) (obj : gmap string pyval) :
  Forall is_mapping refs -> references_ok (set_references refs obj).
Proof.
  intros Hrefs. split.
  - right. eexists. apply lookup_insert_eq.
  - right. exists refs. split; [|done].
    unfold set_references. by rewrite obj_metadata_insert, lookup_insert_eq.
Qed.

Lemma filter_nil_existsb (P : pyval -> bool) (l : list pyval) :
  List.filter P l = [] <-> existsb P l = false.
Proof.
  induction l as [|x l IH]; simpl; [done|].
  destruct (P x); simpl; [split; discriminate | exact IH].
Qed.

Lemma append_body (owner_ref : gmap string pyval) (uid : pyval)
    (obj : gmap string pyval) :
  owner_ref !! "uid" = Some uid ->
  references_ok obj ->
  with_owner_references (fun refs =>
    match rbind (py_iter refs) (matching_refs owner_ref) with
    | Ok [] =>
        match refs with
        | VList l => (Ok tt, VList (l ++ [VDict owner_ref]))
        | _ => (Raise AttributeError, refs)
        end
    | Ok (_ :: _) => (Ok tt, refs)
    | Raise e => (Raise e, refs)
    end) obj
  = (Ok tt,
     set_references (with_reference owner_ref uid (owner_references obj)) obj).
Proof.
  intros Huid Hok. destruct (references_ok_default obj Hok) as [Hdef Hmaps].
  unfold with_owner_references.
  rewrite with_metadata_ok by apply Hok. rewrite Hdef. simpl.
  rewrite (matching_refs_filter owner_ref uid) by done.
  unfold with_reference, set_references.
  destruct (List.filter (refers_to uid) (owner_references obj)) eqn:Hf.
  - apply filter_nil_existsb in Hf. by rewrite Hf.
  - destruct (existsb (refers_to uid) (owner_references obj)) eqn:He; [done|].
    apply filter_nil_existsb in He. congruence.
Qed.

(** [append_owner_reference] with an explicit owner adds the owner's
    reference at the end of the [ownerReferences] of every object that has
    none with the owner's uid, leaves the references of the others as they
    are, and changes nothing else of any object. *)
Theorem append_owner_reference_adds_once
    (build_owner_reference : gmap string pyval -> result (gmap string pyval))
    (owner owner_ref : gmap string pyval) (uid : pyval)
    (objs : list (gmap string pyval)) (w : world) :
  build_owner_reference owner = Ok owner_ref ->
  owner_ref !! "uid" = Some uid ->
  Forall references_ok objs ->
  targets w = many objs ->
  exists objs',
    append_owner_reference build_owner_reference (Some owner) w
    = (Ok tt, set_targets (many objs') w)
    /\ Forall2 (fun o o' =>
         owner_references o'
         = (if existsb (refers_to uid) (owner_references o)
            then owner_references o
            else owner_references o ++ [VDict owner_ref])
         /\ same_but "ownerReferences" o o') objs objs'.
Proof.
  intros Hbor Huid Hok Htargets.
  exists ((fun o => set_references
                      (with_reference owner_ref uid (owner_references o)) o)
          <$> objs).
  split.
  - unfold append_owner_reference.
    rewrite (bind_ok _ _ w w owner) by reflexivity.
    rewrite (bind_ok _ _ w w owner_ref)
      by (unfold lift_result; by rewrite Hbor).
    apply for_walk_many; [|done].
    intros o Ho. apply append_body; [done|].
    by apply (proj1 (Forall_forall _ _) Hok).
  - apply Forall2_fmap_r, Forall_Forall2_diag, Forall_forall.
    intros o _. split.
    + by rewrite owner_references_set.
    + apply same_but_insert.
Qed.

Lemma append_owner_reference_adds_once_witness :
  exists objs',
    append_owner_reference example_owner_reference
      (Some cluster_scoped_owner) one_bare_object
    = (Ok tt, set_targets (many objs') one_bare_object)
    /\ Forall2 (fun _ o' => owner_references o' = [VDict example_reference])
               [(∅ : gmap string pyval)] objs'.
Proof.
  destruct (append_owner_reference_adds_once example_owner_reference
              cluster_scoped_owner example_reference (VStr "uid-1")
              [∅] one_bare_object) as (objs' & Hrun & Hrel).
  - vm_compute. reflexivity.
  - vm_compute. reflexivity.
  - constructor; [|constructor]. split; left; reflexivity.
  - reflexivity.
  - exists objs'. split; [exact Hrun|].
    apply Forall2_cons_inv_l in Hrel as (o' & rest & [Hrefs _] & Hrest & ->).
    apply Forall2_nil_inv_l in Hrest as ->.
    constructor; [exact Hrefs | constructor].
Defined.

Lemma set_targets_twice (t t' : pyval) (w : world) :
  set_targets t (set_targets t' w) = set_targets t w.
Proof. reflexivity. Qed.

Lemma set_targets_same (w : world) : set_targets (targets w) w = w.
Proof. by destruct w. Qed.

Lemma with_reference_has (owner_ref : gmap string pyval) (uid : pyval)
    (refs : list pyval) :
  owner_ref !! "uid" = Some uid ->
  existsb (refers_to uid) (with_reference owner_ref uid refs) = true.
Proof.
  intros Huid. unfold with_reference.
  destruct (existsb (refers_to uid) refs) eqn:He; [done|].
  rewrite existsb_app, He. simpl. rewrite Huid. simpl.
  by rewrite bool_decide_true.
Qed.

Lemma with_reference_mappings (owner_ref : gmap string pyval) (uid : pyval)
    (refs : list pyval) :
  Forall is_mapping refs ->
  Forall is_mapping (with_reference owner_ref uid refs).
Proof.
  intros Hrefs. unfold with_reference. destruct (existsb _ _); [done|].
  apply Forall_app. split; [done|]. constructor; [by eexists | constructor].
Qed.

(** Appending the same owner a second time changes nothing: the reference
    is there once. *)
Theorem append_owner_reference_idempotent
    (build_owner_reference : gmap string pyval -> result (gmap string pyval))
    (owner owner_ref : gmap string pyval) (uid : pyval)
    (objs : list (gmap string pyval)) (w : world) :
  build_owner_reference owner = Ok owner_ref ->
  owner_ref !! "uid" = Some uid ->
  Forall references_ok objs ->
  targets w = many objs ->
  let once := append_owner_reference build_owner_reference (Some owner) w in
  once.1 = Ok tt
  /\ append_owner_reference build_owner_reference (Some owner) once.2 = once.
Proof.
  intros Hbor Huid Hok Htargets once.
  set (f := fun o => set_references
                       (with_reference owner_ref uid (owner_references o)) o).
  assert (Hrun : forall objs0 w0,
            Forall references_ok objs0 -> targets w0 = many objs0 ->
            append_owner_reference build_owner_reference (Some owner) w0
            = (Ok tt, set_targets (many (f <$> objs0)) w0)).
  { intros objs0 w0 Hok0 Ht0. unfold append_owner_reference.
    rewrite (bind_ok _ _ w0 w0 owner) by reflexivity.
    rewrite (bind_ok _ _ w0 w0 owner_ref)
      by (unfold lift_result; by rewrite Hbor).
    apply for_walk_many; [|done].
    intros o Ho. apply append_body; [done|].
    by apply (proj1 (Forall_forall _ _) Hok0). }
  subst once. rewrite (Hrun objs w) by done. split; [done|]. cbn [snd].
  rewrite (Hrun (f <$> objs)).
  - rewrite set_targets_twice.
    assert (Hff : f <$> (f <$> objs) = f <$> objs); [|by rewrite Hff].
    rewrite <- list_fmap_compose. apply list_fmap_ext.
    intros i o Ho. unfold compose, f.
    rewrite owner_references_set, set_references_twice.
    unfold with_reference at 1. by rewrite with_reference_has.
  - apply Forall_fmap, Forall_forall. intros o Ho. unfold compose, f.
    apply references_ok_set, with_reference_mappings.
    apply references_ok_default.
    by apply (proj1 (Forall_forall _ _) Hok).
  - reflexivity.
Qed.

Lemma append_owner_reference_idempotent_witness :
  let once := append_owner_reference example_owner_reference
                (Some cluster_scoped_owner) one_bare_object in
  append_owner_reference example_owner_reference
    (Some cluster_scoped_owner) once.2 = once.
Proof.
  apply (append_owner_reference_idempotent example_owner_reference
           cluster_scoped_owner example_reference (VStr "uid-1")
           [∅] one_bare_object).
  - vm_compute. reflexivity.
  - vm_compute. reflexivity.
  - constructor; [|constructor]. split; left; reflexivity.
  - reflexivity.
Defined.

Lemma remove_each_keep (x : pyval) (matching : list pyval) :
  forall l l',
    Forall (fun ref => x <> ref) matching ->
    remove_each matching (VList l) = (Ok tt, VList l') ->
    remove_each matching (VList (x :: l)) = (Ok tt, VList (x :: l')).
Proof.
  induction matching as [|ref matching IH]; intros l l' Hne; simpl.
  - unfold ret. by intros [= <-].
  - apply Forall_cons in Hne as [Hx Hne].
    rewrite decide_False by done.
    destruct (list_remove_first ref l) as [l1|e]; simpl; [|discriminate].
    by apply IH.
Qed.

Lemma remove_each_filter (P : pyval -> bool) (refs : list pyval) :
  remove_each (List.filter P refs) (VList refs)
  = (Ok tt, VList (List.filter (fun ref => negb (P ref)) refs)).
Proof.
  induction refs as [|x refs IH]; [done|].
  simpl. destruct (P x) eqn:HP; simpl.
  - rewrite decide_True by done. exact IH.
  - apply remove_each_keep; [|exact IH].
    apply Forall_forall. intros ref Href ->.
    apply list_elem_of_In, filter_In in Href as [_ Href]. congruence.
Qed.

Lemma remove_body (owner_ref : gmap string pyval) (uid : pyval)
    (obj : gmap string pyval) :
  owner_ref !! "uid" = Some uid ->
  references_ok obj ->
  with_owner_references (fun refs =>
    match rbind (py_iter refs) (matching_refs owner_ref) with
    | Ok matching => remove_each matching refs
    | Raise e => (Raise e, refs)
    end) obj
  = (Ok tt, set_references (without_reference uid (owner_references obj)) obj).
Proof.
  intros Huid Hok. destruct (references_ok_default obj Hok) as [Hdef Hmaps].
  unfold with_owner_references.
  rewrite with_metadata_ok by apply Hok. rewrite Hdef. simpl.
  rewrite (matching_refs_filter owner_ref uid) by done.
  by rewrite remove_each_filter.
Qed.

Lemma remove_owner_reference_run
    (build_owner_reference : gmap string pyval -> result (gmap string pyval))
    (owner owner_ref : gmap string pyval) (uid : pyval)
    (objs : list (gmap string pyval)) (w : world) :
  build_owner_reference owner = Ok owner_ref ->
  owner_ref !! "uid" = Some uid ->
  Forall references_ok objs ->
  targets w = many objs ->
  remove_owner_reference build_owner_reference (Some owner) w
  = (Ok tt,
     set_targets
       (many ((fun o => set_references
                          (without_reference uid (owner_references o)) o)
              <$> objs)) w).
Proof.
  intros Hbor Huid Hok Htargets. unfold remove_owner_reference.
  rewrite (bind_ok _ _ w w owner) by reflexivity.
  rewrite (bind_ok _ _ w w owner_ref)
    by (unfold lift_result; by rewrite Hbor).
  apply for_walk_many; [|done].
  intros o Ho. apply remove_body; [done|].
  by apply (proj1 (Forall_forall _ _) Hok).
Qed.

(** [remove_owner_reference] with an explicit owner takes every reference
    with the owner's uid out of the [ownerReferences] of every object,
    keeps the other references in their order, and changes nothing else
    of any object. *)
Theorem remove_owner_reference_removes_all
    (build_owner_reference : gmap string pyval -> result (gmap string pyval))
    (owner owner_ref : gmap string pyval) (uid : pyval)
    (objs : list (gmap string pyval)) (w : world) :
  build_owner_reference owner = Ok owner_ref ->
  owner_ref !! "uid" = Some uid ->
  Forall references_ok objs ->
  targets w = many objs ->
  exists objs',
    remove_owner_reference build_owner_reference (Some owner) w
    = (Ok tt, set_targets (many objs') w)
    /\ Forall2 (fun o o' =>
         owner_references o'
         = List.filter (fun ref => negb (refers_to uid ref))
             (owner_references o)
         /\ existsb (refers_to uid) (owner_references o') = false
         /\ same_but "ownerReferences" o o') objs objs'.
Proof.
  intros Hbor Huid Hok Htargets.
  eexists. split; [by eapply remove_owner_reference_run|].
  apply Forall2_fmap_r, Forall_Forall2_diag, Forall_forall.
  intros o _. unfold compose. cbv beta. rewrite owner_references_set.
  split; [done|]. split.
  - unfold without_reference.
    induction (owner_references o) as [|x l IH]; [done|].
    simpl. destruct (refers_to uid x) eqn:Hx; simpl; [done|].
    by rewrite Hx.
  - apply same_but_insert.
Qed.

Lemma remove_owner_reference_removes_all_witness :
  let w := {| cause_var := None; cause_var_reads := 0; warned := [];
              targets :=
                many [set_references
                        [VDict {[ "uid" := VStr "other" ]};
                         VDict example_reference] ∅] |} in
  exists objs',
    remove_owner_reference example_owner_reference
      (Some cluster_scoped_owner) w
    = (Ok tt, set_targets (many objs') w)
    /\ Forall2 (fun _ o' =>
                  owner_references o' = [VDict {[ "uid" := VStr "other" ]}])
         [set_references
            [VDict {[ "uid" := VStr "other" ]}; VDict example_reference] ∅]
         objs'.
Proof.
  intros w.
  destruct (remove_owner_reference_removes_all example_owner_reference
              cluster_scoped_owner example_reference (VStr "uid-1")
              [set_references
                 [VDict {[ "uid" := VStr "other" ]};
                  VDict example_reference] ∅] w) as (objs' & Hrun & Hrel).
  - vm_compute. reflexivity.
  - vm_compute. reflexivity.
  - constructor; [|constructor].
    apply references_ok_set.
    constructor; [by eexists|]. constructor; [by eexists | constructor].
  - reflexivity.
  - exists objs'. split; [exact Hrun|].
    apply Forall2_cons_inv_l in Hrel as (o' & rest & [Hrefs _] & Hrest & ->).
    apply Forall2_nil_inv_l in Hrest as ->.
    constructor; [|constructor].
    rewrite Hrefs, owner_references_set. vm_compute. reflexivity.
Defined.

Lemma append_owner_reference_run
    (build_owner_reference : gmap string pyval -> result (gmap string pyval))
    (owner owner_ref : gmap string pyval) (uid : pyval)
    (objs : list (gmap string pyval)) (w : world) :
  build_owner_reference owner = Ok owner_ref ->
  owner_ref !! "uid" = Some uid ->
  Forall references_ok objs ->
  targets w = many objs ->
  append_owner_reference build_owner_reference (Some owner) w
  = (Ok tt,
     set_targets
       (many ((fun o => set_references
                          (with_reference owner_ref uid (owner_references o))
                          o) <$> objs)) w).
Proof.
  intros Hbor Huid Hok Htargets. unfold append_owner_reference.
  rewrite (bind_ok _ _ w w owner) by reflexivity.
  rewrite (bind_ok _ _ w w owner_ref)
    by (unfold lift_result; by rewrite Hbor).
  apply for_walk_many; [|done].
  intros o Ho. apply append_body; [done|].
  by apply (proj1 (Forall_forall _ _) Hok).
Qed.

Lemma without_with_reference (owner_ref : gmap string pyval) (uid : pyval)
    (refs : list pyval) :
  owner_ref !! "uid" = Some uid ->
  without_reference uid (with_reference owner_ref uid refs)
  = without_reference uid refs.
Proof.
  intros Huid. unfold without_reference, with_reference.
  destruct (existsb (refers_to uid) refs); [done|].
  rewrite List.filter_app. simpl. rewrite Huid. simpl.
  rewrite bool_decide_true by done. simpl. by rewrite app_nil_r.
Qed.

Lemma without_reference_none (uid : pyval) (refs : list pyval) :
  existsb (refers_to uid) refs = false ->
  without_reference uid refs = refs.
Proof.
  unfold without_reference. induction refs as [|x refs IH]; [done|].
  simpl. destruct (refers_to uid x); simpl; [discriminate|].
  intros H. by rewrite IH.
Qed.

(** Removing an owner's reference after appending it gives what removing
    it at once gives; for objects that had no reference with the owner's
    uid this is the list of references they started with. *)
Theorem remove_after_append_owner_reference
    (build_owner_reference : gmap string pyval -> result (gmap string pyval))
    (owner owner_ref : gmap string pyval) (uid : pyval)
    (objs : list (gmap string pyval)) (w : world) :
  build_owner_reference owner = Ok owner_ref ->
  owner_ref !! "uid" = Some uid ->
  Forall references_ok objs ->
  targets w = many objs ->
  let appended :=
    (append_owner_reference build_owner_reference (Some owner) w).2 in
  remove_owner_reference build_owner_reference (Some owner) appended
  = remove_owner_reference build_owner_reference (Some owner) w
  /\ (Forall (fun o => existsb (refers_to uid) (owner_references o) = false)
        objs ->
      exists objs',
        remove_owner_reference build_owner_reference (Some owner) appended
        = (Ok tt, set_targets (many objs') w)
        /\ Forall2 (fun o o' => owner_references o' = owner_references o
                                /\ same_but "ownerReferences" o o')
             objs objs').
Proof.
  intros Hbor Huid Hok Htargets appended. subst appended.
  rewrite (append_owner_reference_run _ owner owner_ref uid objs) by done.
  cbn [snd].
  set (f := fun o => set_references
                       (with_reference owner_ref uid (owner_references o)) o).
  set (g := fun o => set_references
                       (without_reference uid (owner_references o)) o).
  assert (Hleft :
    remove_owner_reference build_owner_reference (Some owner)
      (set_targets (many (f <$> objs)) w)
    = (Ok tt, set_targets (many (g <$> objs)) w)).
  { rewrite (remove_owner_reference_run _ owner owner_ref uid (f <$> objs)).
    - rewrite set_targets_twice. fold g.
      assert (Hgf : g <$> (f <$> objs) = g <$> objs); [|by rewrite Hgf].
      rewrite <- list_fmap_compose. apply list_fmap_ext.
      intros i o Ho. unfold compose, f, g.
      rewrite owner_references_set, set_references_twice.
      by rewrite without_with_reference.
    - done.
    - done.
    - apply Forall_fmap, Forall_forall. intros o Ho. unfold compose, f.
      apply references_ok_set, with_reference_mappings.
      apply references_ok_default.
      by apply (proj1 (Forall_forall _ _) Hok).
    - reflexivity. }
  split.
  - rewrite Hleft.
    by rewrite (remove_owner_reference_run _ owner owner_ref uid objs).
  - intros Hnone. exists (g <$> objs). split; [exact Hleft|].
    apply Forall2_fmap_r, Forall_Forall2_diag, Forall_forall.
    intros o Ho. unfold compose, g. cbv beta.
    rewrite owner_references_set. split.
    + apply without_reference_none.
      by apply (proj1 (Forall_forall _ _) Hnone).
    + apply same_but_insert.
Qed.

Lemma remove_after_append_owner_reference_witness :
  remove_owner_reference example_owner_reference (Some cluster_scoped_owner)
    (append_owner_reference example_owner_reference
       (Some cluster_scoped_owner) one_bare_object).2
  = remove_owner_reference example_owner_reference
      (Some cluster_scoped_owner) one_bare_object.
Proof.
  apply (remove_after_append_owner_reference example_owner_reference
           cluster_scoped_owner example_reference (VStr "uid-1")
           [∅] one_bare_object).
  - vm_compute. reflexivity.
  - vm_compute. reflexivity.
  - constructor; [|constructor]. split; left; reflexivity.
  - reflexivity.
Defined.

(** ** [label] *)

Lemma labels_ok_default (obj : gmap string pyval) :
  labels_ok obj ->
  default (VDict ∅) (obj_metadata obj !! "labels") = VDict (obj_labels obj).
Proof.
  unfold obj_labels. by intros [_ [-> | (labels & ->)]].
Qed.

Lemma obj_labels_set (labels : gmap string pyval) (obj : gmap string pyval) :
  obj_labels (set_labels labels obj) = labels.
Proof.
  unfold obj_labels, set_labels.
  by rewrite obj_metadata_insert, lookup_insert_eq.
Qed.

Lemma set_labels_twice (labels labels' : gmap string pyval)
    (obj : gmap string pyval) :
  set_labels labels (set_labels labels' obj) = set_labels labels obj.
Proof.
  unfold set_labels. by rewrite obj_metadata_insert, !insert_insert_eq.
Qed.

Lemma labels_ok_set (labels : gmap string pyval) (obj : gmap string pyval) :
  labels_ok (set_labels labels obj).
Proof.
  split.
  - right. eexists. apply lookup_insert_eq.
  - right. exists labels. unfold set_labels.
    by rewrite obj_metadata_insert, lookup_insert_eq.
Qed.

Lemma label_body (labels : gmap string pyval) (forced : bool)
    (obj : gmap string pyval) :
  labels_ok obj ->
  with_metadata AttributeError (fun md =>
    let obj_labels := default (VDict ∅) (md !! "labels") in
    let md := <["labels" := obj_labels]> md in
    match VDict labels with
    | VDict labels =>
        if decide (labels = ∅) then (Ok tt, md)
        else match obj_labels with
             | VDict obj_labels =>
                 (Ok tt,
                  <["labels" := VDict (if forced then labels ∪ obj_labels
                                       else obj_labels ∪ labels)]> md)
             | _ => (Raise (if forced then TypeError else AttributeError), md)
             end
    | _ => (Raise AttributeError, md)
    end) obj
  = (Ok tt, set_labels (merged_labels forced labels (obj_labels obj)) obj).
Proof.
  intros Hok. rewrite with_metadata_ok by apply Hok.
  rewrite labels_ok_default by done. unfold set_labels, merged_labels.
  destruct (decide (labels = ∅)) as [->|Hne]; simpl.
  - rewrite (left_id_L ∅ (∪)), (right_id_L ∅ (∪)). by destruct forced.
  - by rewrite insert_insert_eq.
Qed.

Lemma label_run (labels : gmap string pyval) (forced : bool)
    (objs : list (gmap string pyval)) (w : world) :
  Forall labels_ok objs ->
  targets w = many objs ->
  label (VDict labels) forced None None w
  = (Ok tt,
     set_targets
       (many ((fun o => set_labels
                          (merged_labels forced labels (obj_labels o)) o)
              <$> objs)) w).
Proof.
  intros Hok Htargets. unfold label.
  rewrite (bind_ok _ _ w w forced) by reflexivity.
  apply for_walk_many; [|done].
  intros o Ho. apply label_body.
  by apply (proj1 (Forall_forall _ _) Hok).
Qed.

(** [label] gives every object the labels it is passed: without [forced]
    a label that the object has keeps its value and only the missing ones
    are added; with [forced] the passed values win.  The deprecated
    [force] takes the place of [forced] and leaves a warning.  Nothing
    but the labels of an object changes. *)
Theorem label_merges (labels : gmap string pyval) (forced : bool)
    (force : option bool) (objs : list (gmap string pyval)) (w : world) :
  Forall labels_ok objs ->
  targets w = many objs ->
  let out := label (VDict labels) forced None force w in
  out.1 = Ok tt
  /\ warned out.2
     = warned w
       ++ match force with
          | Some _ => ["force= is deprecated in kopf.label(); use forced=..."]
          | None => []
          end
  /\ exists objs',
      targets out.2 = many objs'
      /\ Forall2 (fun o o' =>
           (forall k, obj_labels o' !! k
                      = if default forced force
                        then match labels !! k with
                             | Some v => Some v
                             | None => obj_labels o !! k
                             end
                        else match obj_labels o !! k with
                             | Some v => Some v
                             | None => labels !! k
                             end)
           /\ same_but "labels" o o') objs objs'.
Proof.
  intros Hok Htargets out. subst out.
  set (f := fun o => set_labels
                       (merged_labels (default forced force) labels
                          (obj_labels o)) o).
  assert (Hout : label (VDict labels) forced None force w
                 = (Ok tt,
                    set_targets (many (f <$> objs))
                      (match force with
                       | Some _ =>
                           (warn "force= is deprecated in kopf.label(); use forced=..."
                              w).2
                       | None => w
                       end))).
  { destruct force as [force|]; simpl.
    - unfold label.
      rewrite (bind_ok _ _ w (warn "force= is deprecated in kopf.label(); use forced=..." w).2 force)
        by reflexivity.
      apply for_walk_many; [|done].
      intros o Ho. apply label_body.
      by apply (proj1 (Forall_forall _ _) Hok).
    - by apply label_run. }
  rewrite Hout. cbn [fst snd]. split; [done|]. split.
  - destruct force; simpl; [done | by rewrite app_nil_r].
  - exists (f <$> objs). split; [by destruct force|].
    apply Forall2_fmap_r, Forall_Forall2_diag, Forall_forall.
    intros o _. unfold compose, f. cbv beta. split.
    + intros k. rewrite obj_labels_set. unfold merged_labels.
      destruct (default forced force); rewrite lookup_union;
        by destruct (labels !! k), (obj_labels o !! k).
    + apply same_but_insert.
Qed.

Lemma label_merges_witness :
  let out := label (VDict {[ "app" := VStr "new"; "env" := VStr "prod" ]})
               false None None one_labelled_object in
  out.1 = Ok tt
  /\ exists o', targets out.2 = many [o']
                /\ obj_labels o' !! "app" = Some (VStr "old")
                /\ obj_labels o' !! "env" = Some (VStr "prod")
                /\ obj_labels o' !! "tier" = Some (VStr "db").
Proof.
  intros out.
  destruct (label_merges {[ "app" := VStr "new"; "env" := VStr "prod" ]}
              false None
              [set_labels {[ "app" := VStr "old"; "tier" := VStr "db" ]} ∅]
              one_labelled_object) as (Hok & _ & objs' & Htargets & Hrel).
  - constructor; [apply labels_ok_set | constructor].
  - reflexivity.
  - split; [exact Hok|].
    apply Forall2_cons_inv_l in Hrel as (o' & rest & [Hlab _] & Hrest & ->).
    apply Forall2_nil_inv_l in Hrest as ->.
    exists o'. split; [exact Htargets|].
    rewrite !Hlab, obj_labels_set. vm_compute. done.
Defined.

(** Applying the same labels a second time changes nothing. *)
Theorem label_idempotent (labels : gmap string pyval) (forced : bool)
    (objs : list (gmap string pyval)) (w : world) :
  Forall labels_ok objs ->
  targets w = many objs ->
  let once := label (VDict labels) forced None None w in
  once.1 = Ok tt
  /\ label (VDict labels) forced None None once.2 = once.
Proof.
  intros Hok Htargets once. subst once.
  rewrite (label_run labels forced objs w) by done.
  split; [done|]. cbn [snd].
  set (f := fun o => set_labels
                       (merged_labels forced labels (obj_labels o)) o).
  rewrite (label_run labels forced (f <$> objs)).
  - rewrite set_targets_twice. fold f.
    assert (Hff : f <$> (f <$> objs) = f <$> objs); [|by rewrite Hff].
    rewrite <- list_fmap_compose. apply list_fmap_ext.
    intros i o Ho. unfold compose, f.
    rewrite obj_labels_set, set_labels_twice. f_equal.
    unfold merged_labels. destruct forced.
    + by rewrite (assoc_L (∪)), (idemp_L (∪)).
    + by rewrite <- (assoc_L (∪)), (idemp_L (∪)).
  - apply Forall_fmap, Forall_forall. intros o Ho.
    apply labels_ok_set.
  - reflexivity.
Qed.

Lemma label_idempotent_witness :
  let once := label (VDict {[ "app" := VStr "new" ]}) true None None
                one_labelled_object in
  label (VDict {[ "app" := VStr "new" ]}) true None None once.2 = once.
Proof.
  apply (label_idempotent {[ "app" := VStr "new" ]} true
           [set_labels {[ "app" := VStr "old"; "tier" := VStr "db" ]} ∅]
           one_labelled_object).
  - constructor; [apply labels_ok_set | constructor].
  - reflexivity.
Defined.

(** ** [harmonize_naming] and [adjust_namespace] *)

Lemma elem_of_keys (md : gmap string pyval) (k : string) :
  VStr k ∈ VStr <$> (map_to_list md).*1 <-> is_Some (md !! k).
Proof.
  rewrite list_elem_of_fmap. split.
  - intros (k' & [= <-] & Hk). apply list_elem_of_fmap in Hk as ([k'' v] & -> & Hkv).
    apply elem_of_map_to_list in Hkv. by eexists.
  - intros [v Hv]. exists k. split; [done|].
    apply list_elem_of_fmap. exists (k, v). split; [done|].
    by apply elem_of_map_to_list.
Qed.

Lemma forallb_hashable_keys (keys : list string) :
  forallb (fun x => match x with
                    | VList _ | VDict _ => false
                    | _ => true
                    end) (VStr <$> keys) = true.
Proof. induction keys as [|k keys IH]; [done|]. exact IH. Qed.

Lemma noname_ok (obj : gmap string pyval) :
  metadata_ok obj -> noname obj = Ok (bool_decide (~ named obj)).
Proof.
  unfold noname, named, obj_metadata. intros [Hnone | [md Hmd]].
  - rewrite Hnone. reflexivity.
  - rewrite Hmd. simpl. rewrite forallb_hashable_keys. f_equal.
    destruct (decide (is_Some (md !! "name"))) as [Hn|Hn].
    + rewrite (bool_decide_true (VStr "name" ∈ _)) by by apply elem_of_keys.
      simpl. symmetry. apply bool_decide_eq_false. tauto.
    + rewrite (bool_decide_false (VStr "name" ∈ _))
        by by rewrite elem_of_keys.
      simpl. destruct (decide (is_Some (md !! "generateName"))) as [Hg|Hg].
      * rewrite (bool_decide_true (VStr "generateName" ∈ _))
          by by apply elem_of_keys.
        simpl. symmetry. apply bool_decide_eq_false. tauto.
      * rewrite (bool_decide_false (VStr "generateName" ∈ _))
          by by rewrite elem_of_keys.
        simpl. symmetry. apply bool_decide_eq_true. tauto.
Qed.

Lemma owner_metadata_ok (obj : gmap string pyval) (field : string) :
  metadata_ok obj ->
  owner_metadata obj field VNone = Ok (metadata_field obj field).
Proof.
  unfold owner_metadata, metadata_field, py_get.
  intros [-> | [md ->]]; simpl; [by rewrite lookup_empty | done].
Qed.

(** The loop of [harmonize_naming] over well-formed objects, for whatever
    [name] it has arrived at. *)
Lemma harmonize_loop (name : pyval) (forced strict : bool)
    (objs : list (gmap string pyval)) (w : world) :
  Forall metadata_ok objs ->
  targets w = many objs ->
  for_walk None (fun obj =>
    match noname obj with
    | Raise e => (Raise e, obj)
    | Ok noname =>
        if forced || noname then
          if strict then
            with_metadata TypeError (fun md =>
              (Ok tt, delete "generateName" (<["name" := name]> md))) obj
          else
            with_metadata TypeError (fun md =>
              (Ok tt, delete "name"
                        (<["generateName" := VStr (py_str name +:+ "-")]> md)))
              obj
        else (Ok tt, obj)
    end) w
  = (Ok tt, set_targets (many (harmonized name forced strict <$> objs)) w).
Proof.
  intros Hok Htargets. apply for_walk_many; [|done].
  intros o Ho. assert (Ho' := proj1 (Forall_forall _ _) Hok o Ho).
  rewrite noname_ok by done. unfold harmonized, with_name.
  destruct (forced || bool_decide (~ named o)); [|done].
  destruct strict; by rewrite with_metadata_ok.
Qed.

Lemma harmonize_naming_run (name : pyval) (forced strict : bool)
    (objs : list (gmap string pyval)) (w : world) :
  name <> VNone ->
  Forall metadata_ok objs ->
  targets w = many objs ->
  harmonize_naming name forced strict w
  = (Ok tt, set_targets (many (harmonized name forced strict <$> objs)) w).
Proof.
  intros Hname Hok Htargets. unfold harmonize_naming.
  rewrite (bind_ok _ _ w w name) by (by destruct name).
  by apply harmonize_loop.
Qed.

Lemma harmonized_spec (name : pyval) (forced strict : bool)
    (o : gmap string pyval) :
  let o' := harmonized name forced strict o in
  (forced = false -> named o -> o' = o)
  /\ (forced = true \/ ~ named o ->
      (if strict
       then obj_metadata o' !! "name" = Some name
            /\ obj_metadata o' !! "generateName" = None
       else obj_metadata o' !! "generateName"
            = Some (VStr (py_str name +:+ "-"))
            /\ obj_metadata o' !! "name" = None)
      /\ (forall k, k <> "metadata" -> o' !! k = o !! k)
      /\ (forall k, k <> "name" -> k <> "generateName" ->
                    obj_metadata o' !! k = obj_metadata o !! k)).
Proof.
  unfold harmonized. split.
  - intros -> Hnamed. by rewrite bool_decide_false by tauto.
  - intros Hchange.
    assert (forced || bool_decide (~ named o) = true) as ->.
    { destruct Hchange as [-> | Hn]; [done|].
      rewrite bool_decide_true by done. by destruct forced. }
    unfold with_name. rewrite obj_metadata_insert.
    split; [|split].
    + destruct strict.
      * rewrite lookup_delete_ne, lookup_insert_eq, lookup_delete_eq by done.
        done.
      * rewrite lookup_delete_ne, lookup_insert_eq, lookup_delete_eq by done.
        done.
    + intros k Hk. by rewrite lookup_insert_ne.
    + intros k Hk1 Hk2.
      destruct strict; by rewrite lookup_delete_ne, lookup_insert_ne.
Qed.

(** [harmonize_naming] with a name: an object that has a [name] or a
    [generateName] is left exactly as it is unless [forced]; every other
    object gets, in strict mode, the name and no [generateName], and
    otherwise the name with a dash as [generateName] and no [name];
    nothing else of it changes. *)
Theorem harmonize_naming_names (name : pyval) (forced strict : bool)
    (objs : list (gmap string pyval)) (w : world) :
  name <> VNone ->
  Forall metadata_ok objs ->
  targets w = many objs ->
  exists objs',
    harmonize_naming name forced strict w
    = (Ok tt, set_targets (many objs') w)
    /\ Forall2 (fun o o' =>
         (forced = false -> named o -> o' = o)
         /\ (forced = true \/ ~ named o ->
             (if strict
              then obj_metadata o' !! "name" = Some name
                   /\ obj_metadata o' !! "generateName" = None
              else obj_metadata o' !! "generateName"
                   = Some (VStr (py_str name +:+ "-"))
                   /\ obj_metadata o' !! "name" = None)
             /\ (forall k, k <> "metadata" -> o' !! k = o !! k)
             /\ (forall k, k <> "name" -> k <> "generateName" ->
                           obj_metadata o' !! k = obj_metadata o !! k)))
         objs objs'.
Proof.
  intros Hname Hok Htargets.
  exists (harmonized name forced strict <$> objs).
  split; [by apply harmonize_naming_run|].
  apply Forall2_fmap_r, Forall_Forall2_diag, Forall_forall.
  intros o _. apply harmonized_spec.
Qed.

Lemma harmonize_naming_names_witness :
  exists objs',
    harmonize_naming (VStr "parent") false false
      {| cause_var := None; cause_var_reads := 0; warned := [];
         targets := many [∅;
                          {[ "metadata" := VDict {[ "name" := VStr "kept" ]} ]}]
      |}
    = (Ok tt,
       {| cause_var := None; cause_var_reads := 0; warned := [];
          targets := many objs' |})
    /\ Forall2 (fun o o' => named o -> o' = o)
         [∅; {[ "metadata" := VDict {[ "name" := VStr "kept" ]} ]}] objs'.
Proof.
  destruct (harmonize_naming_names (VStr "parent") false false
              [∅; {[ "metadata" := VDict {[ "name" := VStr "kept" ]} ]}]
              {| cause_var := None; cause_var_reads := 0; warned := [];
                 targets :=
                   many [∅;
                         {[ "metadata" := VDict {[ "name" := VStr "kept" ]} ]}]
              |}) as (objs' & Hrun & Hrel).
  - discriminate.
  - constructor; [by left|].
    constructor; [|constructor]. right. eexists. apply lookup_singleton_eq.
  - reflexivity.
  - exists objs'. split; [exact Hrun|].
    eapply Forall2_impl; [exact Hrel|].
    intros o o' [Hkeep _]. by apply Hkeep.
Defined.

Lemma guess_owner_ambient (c : cause) (r : resource_fields) (w : world) :
  cause_var w = Some (Some c) ->
  resource_tier c = Some r ->
  _guess_owner None w = (Ok (body r), after_read w).
Proof.
  intros Hvar Hr. unfold _guess_owner, bind, cause_var_get, after_read.
  by rewrite Hvar, Hr.
Qed.

(** [harmonize_naming] without a name, in a handler of a resource that
    has no [metadata.name]: the absent name is formatted all the same, so
    every object without a name gets the prefix ["None-"] (in strict mode:
    the name [None]); objects that have a name are left alone. *)
Theorem harmonize_naming_without_any_name (c : cause) (r : resource_fields)
    (strict : bool) (objs : list (gmap string pyval)) (w : world) :
  cause_var w = Some (Some c) ->
  resource_tier c = Some r ->
  metadata_ok (body r) ->
  metadata_field (body r) "name" = VNone ->
  Forall metadata_ok objs ->
  targets w = many objs ->
  exists objs',
    harmonize_naming VNone false strict w
    = (Ok tt, set_targets (many objs') (after_read w))
    /\ Forall2 (fun o o' =>
         (named o -> o' = o)
         /\ (~ named o ->
             if strict
             then obj_metadata o' !! "name" = Some VNone
             else obj_metadata o' !! "generateName" = Some (VStr "None-")))
         objs objs'.
Proof.
  intros Hvar Hr Hbody Hname Hok Htargets.
  exists (harmonized VNone false strict <$> objs). split.
  - unfold harmonize_naming.
    rewrite (bind_ok _ _ w (after_read w) VNone).
    + by apply harmonize_loop.
    + cbn match. rewrite (bind_ok _ _ w (after_read w) (body r))
        by by eapply guess_owner_ambient.
      unfold lift_result. by rewrite owner_metadata_ok, Hname.
  - apply Forall2_fmap_r, Forall_Forall2_diag, Forall_forall.
    intros o _. unfold compose. cbv beta.
    destruct (harmonized_spec VNone false strict o) as [Hkeep Hset].
    split; [by apply Hkeep|].
    intros Hn. destruct (Hset (or_intror Hn)) as [Hnames _].
    destruct strict; apply Hnames.
Qed.

Lemma harmonize_naming_without_any_name_witness :
  exists objs',
    harmonize_naming VNone false false in_nameless_handler
    = (Ok tt, set_targets (many objs') (after_read in_nameless_handler))
    /\ exists o1 o2, objs' = [o1; o2]
         /\ obj_metadata o1 !! "generateName" = Some (VStr "None-")
         /\ o2 = {[ "metadata" := VDict {[ "name" := VStr "kept" ]} ]}.
Proof.
  destruct (harmonize_naming_without_any_name
              (ResourceCause (VObj 1)
                 {| patch := VNone; memo := VNone;
                    body := {[ "metadata" :=
                                 VDict {[ "namespace" := VStr "ns1" ]} ]} |})
              {| patch := VNone; memo := VNone;
                 body := {[ "metadata" :=
                              VDict {[ "namespace" := VStr "ns1" ]} ]} |}
              false
              [∅; {[ "metadata" := VDict {[ "name" := VStr "kept" ]} ]}]
              in_nameless_handler) as (objs' & Hrun & Hrel).
  - reflexivity.
  - reflexivity.
  - right. eexists. apply lookup_singleton_eq.
  - reflexivity.
  - constructor; [by left|].
    constructor; [|constructor]. right. eexists. apply lookup_singleton_eq.
  - reflexivity.
  - exists objs'. split; [exact Hrun|].
    apply Forall2_cons_inv_l in Hrel as (o1 & rest & [_ H1] & Hrest & ->).
    apply Forall2_cons_inv_l in Hrest as (o2 & rest' & [H2 _] & Hrest & ->).
    apply Forall2_nil_inv_l in Hrest as ->.
    exists o1, o2. split; [done|]. split.
    + apply H1. unfold named, obj_metadata. rewrite lookup_empty.
      rewrite !lookup_empty. by intros [[? ?]|[? ?]].
    + apply H2. left. unfold obj_metadata.
      rewrite lookup_singleton_eq. rewrite lookup_singleton_eq. by eexists.
Defined.

Lemma adjust_loop (namespace : pyval) (forced : bool)
    (objs : list (gmap string pyval)) (w : world) :
  Forall metadata_ok objs ->
  targets w = many objs ->
  for_walk None (fun obj =>
    match (if forced then Ok true
           else rbind (owner_metadata obj "namespace" VNone) (fun ns =>
                Ok (bool_decide (ns = VNone)))) with
    | Raise e => (Raise e, obj)
    | Ok true =>
        with_metadata TypeError (fun md =>
          (Ok tt, <["namespace" := namespace]> md)) obj
    | Ok false => (Ok tt, obj)
    end) w
  = (Ok tt, set_targets (many (adjusted namespace forced <$> objs)) w).
Proof.
  intros Hok Htargets. apply for_walk_many; [|done].
  intros o Ho. assert (Ho' := proj1 (Forall_forall _ _) Hok o Ho).
  unfold adjusted, with_namespace. destruct forced; simpl.
  - by rewrite with_metadata_ok.
  - rewrite owner_metadata_ok by done. simpl.
    destruct (bool_decide (metadata_field o "namespace" = VNone)); [|done].
    by rewrite with_metadata_ok.
Qed.

Lemma adjust_namespace_run (namespace : pyval) (forced : bool)
    (objs : list (gmap string pyval)) (w : world) :
  namespace <> VNone ->
  Forall metadata_ok objs ->
  targets w = many objs ->
  adjust_namespace namespace forced w
  = (Ok tt, set_targets (many (adjusted namespace forced <$> objs)) w).
Proof.
  intros Hns Hok Htargets. unfold adjust_namespace.
  rewrite (bind_ok _ _ w w namespace) by (by destruct namespace).
  by apply adjust_loop.
Qed.

Lemma metadata_field_with_namespace (namespace : pyval)
    (o : gmap string pyval) :
  metadata_field (with_namespace namespace o) "namespace" = namespace.
Proof.
  unfold metadata_field, with_namespace.
  by rewrite lookup_insert_eq, lookup_insert_eq.
Qed.

(** [adjust_namespace] with a namespace: an object whose
    [metadata.namespace] is set (and is not [None]) keeps it unless
    [forced]; every other object is put into the namespace; nothing else
    of any object changes. *)
Theorem adjust_namespace_fills_in (namespace : pyval) (forced : bool)
    (objs : list (gmap string pyval)) (w : world) :
  namespace <> VNone ->
  Forall metadata_ok objs ->
  targets w = many objs ->
  exists objs',
    adjust_namespace namespace forced w
    = (Ok tt, set_targets (many objs') w)
    /\ Forall2 (fun o o' =>
         (forced = false -> metadata_field o "namespace" <> VNone -> o' = o)
         /\ (forced = true \/ metadata_field o "namespace" = VNone ->
             metadata_field o' "namespace" = namespace
             /\ same_but "namespace" o o'))
         objs objs'.
Proof.
  intros Hns Hok Htargets.
  exists (adjusted namespace forced <$> objs).
  split; [by apply adjust_namespace_run|].
  apply Forall2_fmap_r, Forall_Forall2_diag, Forall_forall.
  intros o _. unfold compose, adjusted. cbv beta. split.
  - intros -> Hset. by rewrite bool_decide_false.
  - intros Hchange.
    assert (forced || bool_decide (metadata_field o "namespace" = VNone)
            = true) as ->.
    { destruct Hchange as [-> | Hn]; [done|].
      rewrite bool_decide_true by done. by destruct forced. }
    split; [apply metadata_field_with_namespace | apply same_but_insert].
Qed.

Lemma adjust_namespace_fills_in_witness :
  exists objs',
    adjust_namespace (VStr "ns9") false
      {| cause_var := None; cause_var_reads := 0; warned := [];
         targets :=
           many [∅; {[ "metadata" := VDict {[ "namespace" := VStr "own" ]} ]}]
      |}
    = (Ok tt,
       {| cause_var := None; cause_var_reads := 0; warned := [];
          targets := many objs' |})
    /\ exists o1 o2, objs' = [o1; o2]
         /\ metadata_field o1 "namespace" = VStr "ns9"
         /\ o2 = {[ "metadata" := VDict {[ "namespace" := VStr "own" ]} ]}.
Proof.
  destruct (adjust_namespace_fills_in (VStr "ns9") false
              [∅; {[ "metadata" := VDict {[ "namespace" := VStr "own" ]} ]}]
              {| cause_var := None; cause_var_reads := 0; warned := [];
                 targets :=
                   many [∅;
                         {[ "metadata" :=
                              VDict {[ "namespace" := VStr "own" ]} ]}] |})
    as (objs' & Hrun & Hrel).
  - discriminate.
  - constructor; [by left|].
    constructor; [|constructor]. right. eexists. apply lookup_singleton_eq.
  - reflexivity.
  - exists objs'. split; [exact Hrun|].
    apply Forall2_cons_inv_l in Hrel as (o1 & rest & [_ H1] & Hrest & ->).
    apply Forall2_cons_inv_l in Hrest as (o2 & rest' & [H2 _] & Hrest & ->).
    apply Forall2_nil_inv_l in Hrest as ->.
    exists o1, o2. split; [done|]. split.
    + apply H1. by right.
    + apply H2; [done|]. vm_compute. discriminate.
Defined.

(** Adjusting the namespace a second time changes nothing. *)
Theorem adjust_namespace_idempotent (namespace : pyval) (forced : bool)
    (objs : list (gmap string pyval)) (w : world) :
  namespace <> VNone ->
  Forall metadata_ok objs ->
  targets w = many objs ->
  let once := adjust_namespace namespace forced w in
  once.1 = Ok tt
  /\ adjust_namespace namespace forced once.2 = once.
Proof.
  intros Hns Hok Htargets once. subst once.
  rewrite (adjust_namespace_run namespace forced objs w) by done.
  split; [done|]. cbn [snd].
  set (f := adjusted namespace forced).
  assert (Hf_ok : forall o, metadata_ok o -> metadata_ok (f o)).
  { intros o Ho. unfold f, adjusted. destruct (_ || _); [|done].
    right. eexists. apply lookup_insert_eq. }
  rewrite (adjust_namespace_run namespace forced (f <$> objs)).
  - rewrite set_targets_twice. fold f.
    assert (Hff : f <$> (f <$> objs) = f <$> objs); [|by rewrite Hff].
    rewrite <- list_fmap_compose. apply list_fmap_ext.
    intros i o Ho. unfold compose, f, adjusted.
    destruct forced; simpl.
    + unfold with_namespace.
      by rewrite obj_metadata_insert, !insert_insert_eq.
    + destruct (bool_decide (metadata_field o "namespace" = VNone)) eqn:Hb.
      * rewrite metadata_field_with_namespace.
        by rewrite bool_decide_false.
      * by rewrite Hb.
  - done.
  - apply Forall_fmap, Forall_forall. intros o Ho.
    apply Hf_ok. by apply (proj1 (Forall_forall _ _) Hok).
  - reflexivity.
Qed.

Lemma adjust_namespace_idempotent_witness :
  let once := adjust_namespace (VStr "ns9") true one_bare_object in
  adjust_namespace (VStr "ns9") true once.2 = once.
Proof.
  apply (adjust_namespace_idempotent (VStr "ns9") true [∅] one_bare_object).
  - discriminate.
  - constructor; [by left | constructor].
  - reflexivity.
Defined.

(** ** The recorded cancellation and a handler that raises *)

(** C1, at the input where the code departs from it: a blocking handler
    that raises after a cancellation has been recorded.  The cancellation
    is recorded and the wait entered again, as claimed; but when the handle
    completes, the await raises the handler's error, which is no
    [CancelledError] and so leaves the loop at once: [raise cancellation]
    is never reached, the caller gets the handler's error, and the
    recorded cancellation is dropped instead of being raised after the
    handle's completion. *)
Theorem invoke_drops_recorded_cancellation (heap : objects) (depth : nat)
    (fn : handler) (args : list pyval) (cause : option cause)
    (K kw : kwdict) (ambient : gmap nat pyval) (E c : exn)
    (cs : list nat) (rest : list event) :
  call_build_kwargs cause K = Ok kw ->
  is_async_fn depth heap (fn_id fn) = Ok false ->
  call fn ambient args kw = Raise E ->
  is_CancelledError E = false ->
  last_cancellation cs = Some c ->
  invoke heap depth fn args cause K ambient (Cancelled <$> cs)
  = (Waiting (Some c), [])
  /\ invoke heap depth fn args cause K ambient
       ((Cancelled <$> cs) ++ Completed :: rest)
     = (RaisedError E, [the_call fn OnWorker ambient args kw]).
Proof.
  intros Hkw Hsync Hcall Hnot Hlast. split.
  - rewrite (invoke_sync _ _ _ _ _ _ kw) by done.
    rewrite <- (app_nil_r (Cancelled <$> cs)), wait_loop_cancelled.
    by rewrite Hlast.
  - rewrite (invoke_sync _ _ _ _ _ _ kw) by done.
    rewrite wait_loop_cancelled, Hlast. simpl.
    by rewrite Hcall, Hnot.
Qed.

Lemma invoke_drops_recorded_cancellation_witness :
  invoke plain_objects 10 failing_sync_handler [] None ∅ ∅ [Cancelled 1]
  = (Waiting (Some (CancelledError 1)), [])
  /\ invoke plain_objects 10 failing_sync_handler [] None ∅ ∅
       [Cancelled 1; Completed]
     = (RaisedError (Exc "ValueError" 7),
        [the_call failing_sync_handler OnWorker ∅ [] ∅]).
Proof.
  assert (Hkw : call_build_kwargs None ∅ = Ok ∅) by reflexivity.
  exact (invoke_drops_recorded_cancellation plain_objects 10
           failing_sync_handler [] None ∅ ∅ ∅ (Exc "ValueError" 7)
           (CancelledError 1) [1] [] Hkw eq_refl eq_refl eq_refl eq_refl).
Defined.
